(** * Extreme Learning Machine notebook (elm/elm-tutorial.ipynb)

    A shallow embedding of the code cells of the notebook: the activation
    [relu], the projection [hidden_nodes], the assignment of
    [output_weights], [predict], and the feature scaling of cell 3.

    NumPy arrays are mutable objects; [relu] writes through its argument.
    The embedding therefore keeps an explicit store of arrays addressed by
    references, and the module-level names of the notebook
    ([input_weights], [biases], [output_weights]) are fields of the state
    that hold references into that store.  Array entries are IEEE binary64
    values, with NaN and the infinities. *)

From Stdlib Require Import ZArith SpecFloat.
From stdpp Require Import base option list.

Set Default Proof Using "Type".

(** ** binary64 entries *)

Module Float64.

Definition float : Type := spec_float.

Definition prec : Z := 53.
Definition emax : Z := 1024.

Definition add : float → float → float := SFadd prec emax.
Definition mul : float → float → float := SFmul prec emax.

Definition zero : float := S754_zero false.
Definition nan : float := S754_nan.

Definition of_Z (z : Z) : float := binary_normalize prec emax z 0 false.

Definition isnan (x : float) : bool :=
  match x with S754_nan => true | _ => false end.

(** [x >= y] of C and Python: false as soon as one side is NaN. *)
Definition geb (x y : float) : bool := SFleb y x.

(** The float loop of [np.maximum]:
    [(in1 >= in2 || npy_isnan(in1)) ? in1 : in2]. *)
Definition maximum (in1 in2 : float) : float :=
  if geb in1 in2 || isnan in1 then in1 else in2.

#[global] Instance float_eq_dec : EqDecision float.
Proof. unfold float. solve_decision. Defined.

End Float64.

Import Float64.

(** ** Arrays *)

(** A two-dimensional array of shape [(nrows, ncols)], stored by rows.  The
    shape is kept beside the rows because an array with no rows still has a
    column count. *)
Record matrix : Type := Matrix {
  nrows : nat;
  ncols : nat;
  rows : list (list float)
}.

Definition wf_matrix (m : matrix) : Prop :=
  length (rows m) = nrows m ∧ Forall (λ r, length r = ncols m) (rows m).

(** The arrays of the notebook are one-dimensional ([biases]) or
    two-dimensional (everything else). *)
Inductive ndarray : Type :=
  | Array1 (v : list float)
  | Array2 (m : matrix).

Definition shape (a : ndarray) : list nat :=
  match a with
  | Array1 v => [length v]
  | Array2 m => [nrows m; ncols m]
  end.

Definition map_matrix (f : float → float) (m : matrix) : matrix :=
  Matrix (nrows m) (ncols m) (map (map f) (rows m)).

Definition map_ndarray (f : float → float) (a : ndarray) : ndarray :=
  match a with
  | Array1 v => Array1 (map f v)
  | Array2 m => Array2 (map_matrix f m)
  end.

(** Every entry of the array satisfies [P]. *)
Definition all_entries (P : float → Prop) (m : matrix) : Prop :=
  Forall (Forall P) (rows m).

(** ** Outcomes *)

(** The exceptions the cells can raise.  [ValueError] is what NumPy raises
    for operands whose shapes do not fit, [NameError] what Python raises
    for a module-level name that was never assigned, [LinAlgError] what
    SciPy raises when a decomposition fails.  [OutOfModel] is not a Python
    exception: it marks a run that leaves the fragment embedded here (an
    operand of another rank than the notebook uses, or a reference that
    names no array). *)
Inductive exn : Type :=
  | ValueError
  | NameError
  | LinAlgError
  | OutOfModel.

Inductive result (A : Type) : Type :=
  | Ok (a : A)
  | Raise (e : exn).
Arguments Ok {A} a.
Arguments Raise {A} e.

#[global] Instance exn_eq_dec : EqDecision exn.
Proof. solve_decision. Defined.

(** ** Value-level kernels of the NumPy calls *)

Module kernel.

(** Sum of products of a row and a column, accumulated in index order.
    A BLAS may associate the sum differently; nothing below depends on
    the order. *)
Definition inner (u v : list float) : float :=
  foldl (λ acc p, add acc (mul p.1 p.2)) zero (zip u v).

Definition column (j : nat) (b : matrix) : list float :=
  map (λ r, nth j r zero) (rows b).

Definition matmul (a b : matrix) : matrix :=
  Matrix (nrows a) (ncols b)
    (map (λ r, map (λ j, inner r (column j b)) (seq 0 (ncols b))) (rows a)).

(** [np.dot] on two 2-D arrays: the inner dimensions must agree. *)
Definition dot (a b : matrix) : result matrix :=
  if decide (ncols a = nrows b) then Ok (matmul a b) else Raise ValueError.

(** [g + b] for [g] of shape [(n, c)] and [b] of shape [(k,)], with
    NumPy's broadcasting of the trailing dimension: equal lengths
    ([add_bias], every row of [g] plus [b]), or one of them 1. *)
Definition add_bias (g : matrix) (b : list float) : matrix :=
  Matrix (nrows g) (ncols g) (map (λ r, zip_with add r b) (rows g)).

Definition add_rows (g : matrix) (b : list float) : result matrix :=
  if decide (ncols g = length b) then Ok (add_bias g b)
  else if decide (length b = 1) then
    Ok (Matrix (nrows g) (ncols g)
          (map (map (λ x, add x (hd zero b))) (rows g)))
  else if decide (ncols g = 1) then
    Ok (Matrix (nrows g) (length b)
          (map (λ r, map (add (hd zero r)) b) (rows g)))
  else Raise ValueError.

(** Elementwise [np.maximum(_, 0)]. *)
Definition maximum0 (a : ndarray) : ndarray :=
  map_ndarray (λ x, maximum x zero) a.

End kernel.

(** ** The store and the module-level names *)

Definition loc : Type := nat.

(** [heap] holds every array object created so far; a reference is an index
    into it.  [input_weights] and [biases] are bound by cell 7;
    [output_weights] is unbound ([None]) until the assignment of cell 9 has
    completed. *)
Record state : Type := State {
  heap : list ndarray;
  input_weights : loc;
  biases : loc;
  output_weights : option loc
}.

Definition set_heap (h : list ndarray) (s : state) : state :=
  State h (input_weights s) (biases s) (output_weights s).

Definition set_output_weights (l : loc) (s : state) : state :=
  State (heap s) (input_weights s) (biases s) (Some l).

(** A computation runs on the state and returns a value or raises; the state
    it leaves behind is kept in both cases, as Python keeps the effects of a
    statement that raised. *)
Definition M (A : Type) : Type := state → result A * state.

#[global] Instance M_ret : MRet M := λ A a s, (Ok a, s).

#[global] Instance M_bind : MBind M := λ A B f m s,
  match m s with
  | (Ok a, s') => f a s'
  | (Raise e, s') => (Raise e, s')
  end.

Definition raise {A : Type} (e : exn) : M A := λ s, (Raise e, s).

Definition lift {A : Type} (r : result A) : M A := λ s, (r, s).

(** A new array object: it gets the next free reference. *)
Definition alloc (a : ndarray) : M loc :=
  λ s, (Ok (length (heap s)), set_heap (heap s ++ [a]) s).

Definition load (l : loc) : M ndarray :=
  λ s, match heap s !! l with
       | Some a => (Ok a, s)
       | None => (Raise OutOfModel, s)
       end.

Definition load2 (l : loc) : M matrix :=
  a ← load l;
  match a with
  | Array2 m => mret m
  | Array1 _ => raise OutOfModel
  end.

(** Overwrite the contents of an existing array object. *)
Definition store (l : loc) (a : ndarray) : M unit :=
  λ s, (Ok tt, set_heap (<[l := a]> (heap s)) s).

(** Reading the module-level names. *)
Definition global_input_weights : M loc := λ s, (Ok (input_weights s), s).
Definition global_biases : M loc := λ s, (Ok (biases s), s).
Definition global_output_weights : M loc :=
  λ s, match output_weights s with
       | Some l => (Ok l, s)
       | None => (Raise NameError, s)
       end.

(** [output_weights = ...] *)
Definition assign_output_weights (l : loc) : M unit :=
  λ s, (Ok tt, set_output_weights l s).

(** ** The NumPy calls on references *)

Module np.

(** [np.dot(a, b)]: a new array; the operands are left as they are. *)
Definition dot (a b : loc) : M loc :=
  A ← load2 a;
  B ← load2 b;
  C ← lift (kernel.dot A B);
  alloc (Array2 C).

(** [g + b] with [b] one-dimensional: a new array. *)
Definition add (g b : loc) : M loc :=
  G ← load2 g;
  B ← load b;
  match B with
  | Array1 v => C ← lift (kernel.add_rows G v); alloc (Array2 C)
  | Array2 _ => raise OutOfModel
  end.

(** [np.maximum(x, 0, out)]: the elementwise maximum of [x] and 0 is written
    into the array [out], which is also what the call returns.  [out] must
    have the shape of the result. *)
Definition maximum (x : loc) (out : loc) : M loc :=
  X ← load x;
  O ← load out;
  if decide (shape X = shape O) then
    _ ← store out (kernel.maximum0 X); mret out
  else raise ValueError.

End np.

(** ** Cells 8 to 10 *)

(** [def relu(x): return np.maximum(x, 0, x)] *)
Definition relu (x : loc) : M loc := np.maximum x x.

(** [def hidden_nodes(X)]:
    [G = np.dot(X, input_weights); G = G + biases; H = relu(G); return H] *)
Definition hidden_nodes (X : loc) : M loc :=
  W ← global_input_weights;
  G ← np.dot X W;
  b ← global_biases;
  G ← np.add G b;
  H ← relu G;
  mret H.

(** [def predict(X)]:
    [out = hidden_nodes(X); out = np.dot(out, output_weights); return out] *)
Definition predict (X : loc) : M loc :=
  out ← hidden_nodes X;
  W ← global_output_weights;
  out ← np.dot out W;
  mret out.

(** The contents of the array a computation returns, or the exception it
    raised. *)
Definition returned (m : M loc) (s : state) : result ndarray :=
  match m s with
  | (Ok l, s') =>
      match heap s' !! l with
      | Some a => Ok a
      | None => Raise OutOfModel
      end
  | (Raise e, _) => Raise e
  end.

Section Solver.

(** [scipy.linalg.pinv2] is SciPy's code, not the notebook's: the
    pseudo-inverse it computes from a singular value decomposition is taken
    as given.  It returns a new array and may raise. *)
Variable pinv2_val : matrix → result matrix.

Definition pinv2 (a : loc) : M loc :=
  A ← load2 a;
  P ← lift (pinv2_val A);
  alloc (Array2 P).

(** The part of the assignment in cell 9 that follows the projection:
    [output_weights = np.dot(pinv2(H), Y)]. *)
Definition solve (H Y : loc) : M unit :=
  P ← pinv2 H;
  W ← np.dot P Y;
  assign_output_weights W.

(** Cell 9:
    [output_weights = np.dot(pinv2(hidden_nodes(X_train)), y_train)] *)
Definition fit (X_train y_train : loc) : M unit :=
  H ← hidden_nodes X_train;
  solve H y_train.

End Solver.

(** What SciPy documents of [pinv2]: the pseudo-inverse of an array of shape
    [(n, h)] has shape [(h, n)]. *)
Definition pinv2_contract (pinv2_val : matrix → result matrix) : Prop :=
  ∀ a p, wf_matrix a → pinv2_val a = Ok p →
    wf_matrix p ∧ nrows p = ncols a ∧ ncols p = nrows a.

(** ** Constructed models *)

(** The state cell 7 leaves: [input_weights] names a two-dimensional array
    [W] of shape [(input_size, hidden_size)] and [biases] a one-dimensional
    array [b] of length [hidden_size]. *)
Definition model (s : state) (W : matrix) (b : list float) : Prop :=
  heap s !! input_weights s = Some (Array2 W)
  ∧ heap s !! biases s = Some (Array1 b)
  ∧ wf_matrix W
  ∧ length b = ncols W.

(** [X·W + b] and its rectification, as values. *)
Definition preactivation (X W : matrix) (b : list float) : matrix :=
  kernel.add_bias (kernel.matmul X W) b.

Definition activation (X W : matrix) (b : list float) : matrix :=
  map_matrix (λ x, maximum x zero) (preactivation X W b).

(** The entry is at least 0. *)
Definition nonneg (x : float) : Prop := geb x zero = true.

(** ** Frames *)

(** [s'] has the module-level names of [s] and every array object of [s]
    with its contents; it may hold further objects. *)
Definition extends (s s' : state) : Prop :=
  input_weights s' = input_weights s
  ∧ biases s' = biases s
  ∧ output_weights s' = output_weights s
  ∧ ∃ ext, heap s' = heap s ++ ext.

(** A call that creates one array object and returns it, or raises and
    leaves the state as it was. *)
Definition allocates (m : M loc) : Prop :=
  ∀ s r s', m s = (r, s') →
    (∃ a, r = Ok (length (heap s)) ∧ s' = set_heap (heap s ++ [a]) s)
    ∨ (∃ e, r = Raise e ∧ s' = s).

(** ** Cell 3: feature scaling *)

Module scaler.

Section StandardScaler.

(** [StandardScaler] is scikit-learn's: how it computes the per-column mean
    and scale ([compute_stats]) and how it applies them ([standardize]) is
    taken as given. *)
Context {stats : Type}.
Variable compute_stats : matrix → stats.
Variable standardize : stats → matrix → matrix.

(** The scaler object holds the statistics of its last fit; a new
    [StandardScaler()] holds none. *)
Definition t : Type := option stats.

Definition new : t := None.

(** [scaler.fit(data)]: the statistics are reset and computed from [data]. *)
Definition fit (data : matrix) (sc : t) : t := Some (compute_stats data).

(** [scaler.transform(data)]: applies the stored statistics; [None] stands
    for scikit-learn's error on a scaler that was never fitted. *)
Definition transform (data : matrix) (sc : t) : option matrix :=
  match sc with
  | Some st => Some (standardize st data)
  | None => None
  end.

(** [scaler.fit_transform(data)] is [scaler.fit(data).transform(data)]. *)
Definition fit_transform (data : matrix) (sc : t) : option matrix * t :=
  let sc' := fit data sc in (transform data sc', sc').

(** The scaler lines of cell 3:
    [scaler = StandardScaler()],
    [X_train = scaler.fit_transform(train.values[:,1:])],
    [X_test = scaler.fit_transform(test.values[:,1:])].
    The result is [X_train], [X_test] and the scaler as the cell leaves it. *)
Definition cell3 (train test : matrix) : option matrix * option matrix * t :=
  let sc := new in
  let '(X_train, sc) := fit_transform train sc in
  let '(X_test, sc) := fit_transform test sc in
  (X_train, X_test, sc).

End StandardScaler.

End scaler.

(** ** Cell 3: the columns of the table *)

Module table.

(** [values[:, 1:]]: every row without its first entry. *)
Definition features (values : matrix) : matrix :=
  Matrix (nrows values) (ncols values - 1) (map (drop 1) (rows values)).

(** [values[:, :1]]: the first entry of every row, as a column. *)
Definition labels (values : matrix) : matrix :=
  Matrix (nrows values) (min 1 (ncols values)) (map (take 1) (rows values)).

End table.

(** ** Cells 5 to 7: the random weights *)

(** Cell 6: [hidden_size = 1000]. *)
Definition hidden_size : nat := 1000.

Section Construct.

(** NumPy's global generator is deterministic: [variate k] is the [k]-th
    normal variate it delivers from the state it is in when cell 7 starts.
    [np.random.normal(size=...)] fills its result in row-major order with
    the next variates. *)
Variable variate : nat → float.

Definition normal2 (first r c : nat) : matrix :=
  Matrix r c (map (λ i, map (λ j, variate (first + i * c + j)) (seq 0 c))
                  (seq 0 r)).

Definition normal1 (first n : nat) : list float :=
  map (λ j, variate (first + j)) (seq 0 n).

(** Cells 5 and 7, run on a store [hp] in which [X_train] names a
    two-dimensional array, with [hidden] the value of [hidden_size]:
    [input_size = X_train.shape[1]],
    [input_weights = np.random.normal(size=[input_size, hidden_size])],
    [biases = np.random.normal(size=[hidden_size])].
    The result is the state with the two names bound, and the number of
    variates consumed. *)
Definition construct (hp : list ndarray) (X_train : loc) (hidden : nat)
  : result (state * nat) :=
  match hp !! X_train with
  | Some (Array2 X) =>
      let input_size := ncols X in
      let W := normal2 0 input_size hidden in
      let b := normal1 (input_size * hidden) hidden in
      Ok (State (hp ++ [Array2 W; Array1 b]) (length hp) (S (length hp)) None,
          input_size * hidden + hidden)
  | _ => Raise OutOfModel
  end.

End Construct.

(** ** Cell 11: the accuracy *)

(** Cell 11 can raise two exceptions more than the cells before it. *)
Inductive py_exn : Type :=
  | NumPy (e : exn)
  | IndexError
  | ZeroDivisionError.

Inductive py_result (A : Type) : Type :=
  | Return (a : A)
  | Throw (e : py_exn).
Arguments Return {A} a.
Arguments Throw {A} e.

Definition Cell (A : Type) : Type := state → py_result A * state.

#[global] Instance Cell_ret : MRet Cell := λ A a s, (Return a, s).

#[global] Instance Cell_bind : MBind Cell := λ A B f m s,
  match m s with
  | (Return a, s') => f a s'
  | (Throw e, s') => (Throw e, s')
  end.

Definition throw {A : Type} (e : py_exn) : Cell A := λ s, (Throw e, s).

(** A call of the earlier cells inside cell 11. *)
Definition numpy {A : Type} (m : M A) : Cell A :=
  λ s, match m s with
       | (Ok a, s') => (Return a, s')
       | (Raise e, s') => (Throw (NumPy e), s')
       end.

(** The loop of NumPy's [argmax] for floats, entered after the first entry:
    [mp] is the largest entry so far and [max_ind] its index; the entry
    [x] at index [i] replaces it when [!(x <= mp)], and a NaN ends the
    loop. *)
Fixpoint argmax_loop (mp : float) (max_ind i : nat) (ip : list float) : nat :=
  match ip with
  | [] => max_ind
  | x :: ip' =>
      if negb (geb mp x) then
        if isnan x then i else argmax_loop x i (S i) ip'
      else argmax_loop mp max_ind (S i) ip'
  end.

(** [np.argmax(v)] for a one-dimensional [v]: [ValueError] on an empty
    array; a NaN in first place is maximal at once. *)
Definition argmax (v : list float) : result nat :=
  match v with
  | [] => Raise ValueError
  | x :: ip => if isnan x then Ok 0 else Ok (argmax_loop x 0 1 ip)
  end.

(** [a[i]] for a two-dimensional [a] and [i >= 0]: row [i], or
    [IndexError].  The row is a view that cell 11 only reads, so its
    contents stand for it. *)
Definition getitem (a : loc) (i : nat) : Cell (list float) :=
  A ← numpy (load2 a);
  match rows A !! i with
  | Some r => mret r
  | None => throw IndexError
  end.

(** The body of [for i in range(total)], over the indices still to visit:
    [predicted = np.argmax(prediction[i])],
    [actual = np.argmax(y_test[i])],
    [correct += 1 if predicted == actual else 0]. *)
Fixpoint count_loop (prediction y_test : loc) (indices : list nat)
    (correct : nat) : Cell nat :=
  match indices with
  | [] => mret correct
  | i :: rest =>
      p ← getitem prediction i;
      predicted ← numpy (lift (argmax p));
      y ← getitem y_test i;
      actual ← numpy (lift (argmax y));
      count_loop prediction y_test rest
        (correct + (if decide (predicted = actual) then 1 else 0))
  end.

(** [correct/total] on Python integers: [ZeroDivisionError] for
    [total = 0], else the binary64 quotient (the counts of an array are far
    below [2^53], so they convert exactly). *)
Definition true_divide (correct total : nat) : Cell float :=
  if decide (total = 0) then throw ZeroDivisionError
  else mret (SFdiv prec emax (of_Z (Z.of_nat correct)) (of_Z (Z.of_nat total))).

(** What cell 11 leaves in [correct], [total] and [accuracy]. *)
Record score : Type := Score {
  correct : nat;
  total : nat;
  accuracy : float
}.

(** Cell 11:
    [prediction = predict(X_test)], [correct = 0],
    [total = X_test.shape[0]], the loop, [accuracy = correct/total]. *)
Definition cell11 (X_test y_test : loc) : Cell score :=
  prediction ← numpy (predict X_test);
  X ← numpy (load2 X_test);
  let total := nrows X in
  correct ← count_loop prediction y_test (seq 0 total) 0;
  accuracy ← true_divide correct total;
  mret (Score correct total accuracy).

(** The rows on which the two arrays have the same [argmax], among the
    first [n]. *)
Definition agree (v w : list float) : bool :=
  match argmax v, argmax w with
  | Ok a, Ok b => bool_decide (a = b)
  | _, _ => false
  end.

Definition agreements (P Y : matrix) (n : nat) : nat :=
  length (filter (λ vw, agree vw.1 vw.2 = true)
            (zip (take n (rows P)) (take n (rows Y)))).

(** The loop of cell 11 on the rows of the two arrays, without the store:
    what it counts, or what it throws. *)
Fixpoint count_rows (P Y : list (list float)) (indices : list nat)
    (correct : nat) : py_result nat :=
  match indices with
  | [] => Return correct
  | i :: rest =>
      match P !! i with
      | None => Throw IndexError
      | Some p =>
          match argmax p with
          | Raise e => Throw (NumPy e)
          | Ok predicted =>
              match Y !! i with
              | None => Throw IndexError
              | Some y =>
                  match argmax y with
                  | Raise e => Throw (NumPy e)
                  | Ok actual =>
                      count_rows P Y rest
                        (correct + (if decide (predicted = actual) then 1 else 0))
                  end
              end
          end
      end
  end.

(** No entry of the row is NaN. *)
Definition no_nan (v : list float) : Prop := Forall (λ x, isnan x = false) v.

(** The one-hot row of length [n] with its 1.0 at index [k]. *)
Definition onehot (n k : nat) : list float :=
  map (λ j, if decide (j = k) then of_Z 1 else zero) (seq 0 n).

(** ** [scipy.linalg.pinv2] over LAPACK's decomposition *)

Module la.

(** [np.transpose] of a two-dimensional array. *)
Definition transpose (a : matrix) : matrix :=
  Matrix (ncols a) (nrows a) (map (λ j, kernel.column j a) (seq 0 (ncols a))).

End la.

Module scipy.

Definition div : float → float → float := SFdiv prec emax.

Definition isfinite (x : float) : bool :=
  match x with
  | S754_zero _ | S754_finite _ _ _ => true
  | _ => false
  end.

(** [check_finite=True]: the argument may hold neither NaN nor infinity. *)
Definition all_finite (a : matrix) : bool := forallb (forallb isfinite) (rows a).

(** [np.finfo('d').eps], and the default cut-off factor [1E6 * eps]. *)
Definition eps : float := binary_normalize prec emax 1 (-52) false.
Definition cond : float := mul (of_Z 1000000) eps.

(** [np.max(s)]: [ValueError] on an empty array. *)
Definition amax (s : list float) : result float :=
  match s with
  | [] => Raise ValueError
  | x :: rest => Ok (foldl maximum x rest)
  end.

(** [rank = np.sum(s > cond * np.max(s))]: the number of singular values
    above the relative cut-off. *)
Definition rank (s : list float) (m : float) : nat :=
  length (filter (λ x, SFltb (mul cond m) x = true) s).

(** [u = u[:, :rank]; u /= s[:rank]]: the leading columns of [u], each
    divided by its singular value. *)
Definition scaled (u : matrix) (s : list float) (r : nat) : matrix :=
  Matrix (nrows u) (min r (ncols u))
    (map (λ row, zip_with div (take r row) (take r s)) (rows u)).

(** [vh[:rank]]: the leading rows of [vh]. *)
Definition leading (vh : matrix) (r : nat) : matrix :=
  Matrix (min r (nrows vh)) (ncols vh) (take r (rows vh)).

(** [B = np.transpose(np.conjugate(np.dot(u, vh[:rank])))] on real
    arrays, for the factors and the largest singular value [m]. *)
Definition pinv_from (u : matrix) (s : list float) (vh : matrix) (m : float)
  : result matrix :=
  let r := rank s m in
  match kernel.dot (scaled u s r) (leading vh r) with
  | Ok B => Ok (la.transpose B)
  | Raise e => Raise e
  end.

(** [pinv2(a)] with its default arguments, as SciPy writes it, over the
    decomposition [svd(a, full_matrices=False)] that LAPACK computes and
    that is taken as given: [u], the singular values [s], and [vh]. *)
Definition pinv2_of_svd
    (svd : matrix → result (matrix * list float * matrix)) (a : matrix)
  : result matrix :=
  if all_finite a then
    match svd a with
    | Ok (u, s, vh) =>
        match amax s with
        | Ok m => pinv_from u s vh m
        | Raise e => Raise e
        end
    | Raise e => Raise e
    end
  else Raise ValueError.


End scipy.

(** ** Sample data *)

Definition f1 : float := of_Z 1.
Definition f2 : float := of_Z 2.
Definition fm3 : float := of_Z (-3).


Definition demo_W : matrix := Matrix 2 2 [[f1; fm3]; [f2; f1]].
Definition demo_b : list float := [f1; f1].
Definition demo_X : matrix := Matrix 1 2 [[f1; f2]].
Definition demo_wide : matrix := Matrix 1 3 [[f1; f2; f1]].
Definition demo_Wout : matrix := Matrix 2 1 [[f1]; [f2]].

(** A constructed model that was never fitted, with two inputs: one with
    [input_size] columns (reference 2) and one with three (reference 3). *)
Definition demo_state : state :=
  State [Array2 demo_W; Array1 demo_b; Array2 demo_X; Array2 demo_wide]
        0 1 None.

(** The same model with output weights (reference 4). *)
Definition demo_fitted : state :=
  State [Array2 demo_W; Array1 demo_b; Array2 demo_X; Array2 demo_wide;
         Array2 demo_Wout]
        0 1 (Some 4).

(** [demo_state] after one projection of the first input. *)
Definition demo_projected : state := (hidden_nodes 2 demo_state).2.

Definition unit_matrix : matrix := Matrix 1 1 [[f1]].
Definition nan_matrix : matrix := Matrix 1 1 [[nan]].

(** A model with one feature and one hidden unit, weight 1.0 and bias 0.0,
    and an input whose only entry is NaN (reference 2). *)
Definition nan_state : state :=
  State [Array2 unit_matrix; Array1 [zero]; Array2 nan_matrix] 0 1 None.

(** The pseudo-inverse restricted to the array [[1.0]], which is its own
    pseudo-inverse; every other argument is refused. *)
Definition pinv2_unit (a : matrix) : result matrix :=
  if decide (rows a = [[f1]] ∧ nrows a = 1 ∧ ncols a = 1)
  then Ok a else Raise LinAlgError.

Definition onehot_a : matrix := Matrix 1 2 [[f1; zero]].
Definition onehot_b : matrix := Matrix 1 2 [[zero; f1]].
Definition two_rows : matrix := Matrix 2 2 [[f1; zero]; [zero; f1]].

(** The one-feature model with hidden activations [[1.0]] (reference 2) and
    three target arrays (references 3, 4 and 5). *)
Definition unit_state : state :=
  State [Array2 unit_matrix; Array1 [zero]; Array2 unit_matrix;
         Array2 onehot_a; Array2 onehot_b; Array2 two_rows]
        0 1 None.

(** [unit_state] after a first assignment of the output weights, from the
    targets of reference 3. *)
Definition unit_fitted : state := (solve pinv2_unit 2 3 unit_state).2.

(** A fitted one-feature model with two classes and several test inputs:
    one row (reference 2), no row (reference 7), two rows (reference 8);
    the output weights are at reference 6. *)
Definition no_rows : matrix := Matrix 0 1 [].
Definition two_inputs : matrix := Matrix 2 1 [[f1]; [f2]].

Definition eval_state : state :=
  State [Array2 unit_matrix; Array1 [zero]; Array2 unit_matrix;
         Array2 onehot_a; Array2 onehot_b; Array2 two_rows;
         Array2 onehot_a; Array2 no_rows; Array2 two_inputs]
        0 1 (Some 6).

(** A generator whose first variate is 1.0 and whose other variates are
    0.0, and a store holding training inputs (reference 0), training
    labels (reference 1) and test inputs (reference 2). *)
Definition unit_variate (k : nat) : float :=
  if decide (k = 0) then f1 else zero.

Definition raw_store : list ndarray :=
  [Array2 unit_matrix; Array2 onehot_a; Array2 two_inputs].

(** A hidden-activation array of shape (2, 3) with singular values 2.0 and
    [2^-70], the decomposition LAPACK has for it, and a store holding it
    (reference 2) beside one-hot targets (reference 3). *)
Definition tiny : float := binary_normalize prec emax 1 (-70) false.
Definition half : float := binary_normalize prec emax 1 (-1) false.

Definition wide_H : matrix := Matrix 2 3 [[f2; zero; zero]; [zero; tiny; zero]].

Definition svd_wide (a : matrix)
  : result (matrix * list float * matrix) :=
  if decide (rows a = rows wide_H ∧ nrows a = 2 ∧ ncols a = 3)
  then Ok (Matrix 2 2 [[f1; zero]; [zero; f1]], [f2; tiny],
           Matrix 2 3 [[f1; zero; zero]; [zero; f1; zero]])
  else Raise LinAlgError.

Definition wide_P : matrix := Matrix 3 2 [[half; zero]; [zero; zero]; [zero; zero]].

Definition svd_state : state :=
  State [Array2 unit_matrix; Array1 [zero]; Array2 wide_H; Array2 two_rows;
         Array2 onehot_a]
        0 1 None.

Example maximum_pos : maximum f2 zero = f2.
Proof. reflexivity. Qed.

Example maximum_neg : maximum fm3 zero = zero.
Proof. reflexivity. Qed.

Example maximum_nan : maximum nan zero = nan.
Proof. reflexivity. Qed.

Example dot_2x2 :
  kernel.dot (Matrix 1 2 [[f1; f2]]) (Matrix 2 1 [[f2]; [fm3]])
  = Ok (Matrix 1 1 [[of_Z (-4)]]).
Proof. vm_compute. reflexivity. Qed.

Example dot_mismatch :
  kernel.dot (Matrix 1 2 [[f1; f2]]) (Matrix 1 1 [[f2]]) = Raise ValueError.
Proof. reflexivity. Qed.


(** ** Entries and shapes of the kernels *)

Lemma maximum_zero_cases (x : float) :
  (isnan x = true ∧ maximum x zero = x)
  ∨ (isnan x = false ∧ nonneg (maximum x zero)).
Proof.
  unfold maximum, nonneg.
  destruct (isnan x) eqn:Hn; [left | right]; split; try done.
  all: rewrite ?orb_true_r, ?orb_false_r; try done.
  destruct (geb x zero) eqn:Hg; [done | reflexivity].
Qed.

Lemma nan_not_nonneg (x : float) : isnan x = true → ¬ nonneg x.
Proof. destruct x; discriminate. Qed.

Lemma wf_matmul (a b : matrix) :
  wf_matrix a →
  wf_matrix (kernel.matmul a b)
  ∧ nrows (kernel.matmul a b) = nrows a
  ∧ ncols (kernel.matmul a b) = ncols b.
Proof.
  intros [Hlen _]. repeat split; simpl.
  - by rewrite length_map.
  - apply Forall_forall. intros r Hr.
    apply list_elem_of_fmap in Hr as (r0 & -> & _).
    by rewrite length_map, length_seq.
Qed.

Lemma wf_add_bias (g : matrix) (b : list float) :
  wf_matrix g → length b = ncols g →
  wf_matrix (kernel.add_bias g b)
  ∧ nrows (kernel.add_bias g b) = nrows g
  ∧ ncols (kernel.add_bias g b) = ncols g.
Proof.
  intros [Hlen Hrows] Hb. repeat split; simpl.
  - by rewrite length_map.
  - apply Forall_forall. intros r Hr.
    apply list_elem_of_fmap in Hr as (r0 & -> & Hr0).
    rewrite length_zip_with.
    rewrite Forall_forall in Hrows. specialize (Hrows _ Hr0). lia.
Qed.

Lemma wf_map_matrix (f : float → float) (m : matrix) :
  wf_matrix m → wf_matrix (map_matrix f m).
Proof.
  intros [Hlen Hrows]. split; simpl.
  - by rewrite length_map.
  - apply Forall_forall. intros r Hr.
    apply list_elem_of_fmap in Hr as (r0 & -> & Hr0).
    rewrite length_map. rewrite Forall_forall in Hrows. by apply Hrows.
Qed.

Lemma all_entries_map (P Q : float → Prop) (f : float → float) (m : matrix) :
  (∀ x, P x → Q (f x)) → all_entries P m → all_entries Q (map_matrix f m).
Proof.
  intros HPQ Hm. unfold all_entries in *. simpl.
  apply Forall_fmap. eapply Forall_impl; [exact Hm |].
  intros r Hr. apply Forall_fmap. eapply Forall_impl; [exact Hr |].
  intros x Hx. by apply HPQ.
Qed.

Lemma all_entries_True (m : matrix) : all_entries (λ _, True) m.
Proof. unfold all_entries. apply Forall_forall. intros r _. by apply Forall_forall. Qed.

Lemma wf_activation (X W : matrix) (b : list float) :
  wf_matrix X → length b = ncols W →
  wf_matrix (activation X W b)
  ∧ nrows (activation X W b) = nrows X
  ∧ ncols (activation X W b) = ncols W.
Proof.
  intros HX Hb.
  destruct (wf_matmul X W HX) as (Hwf & Hr & Hc).
  destruct (wf_add_bias (kernel.matmul X W) b Hwf) as (Hwf' & Hr' & Hc').
  { by rewrite Hc. }
  split; [by apply wf_map_matrix |]. split; simpl; congruence.
Qed.

(** ** Running the primitives *)

Lemma bind_inv {A B : Type} (m : M A) (f : A → M B) s r s' :
  (m ≫= f) s = (r, s') →
  (∃ a s1, m s = (Ok a, s1) ∧ f a s1 = (r, s'))
  ∨ (∃ e, m s = (Raise e, s') ∧ r = Raise e).
Proof.
  unfold mbind, M_bind. destruct (m s) as [[a | e] s1]; intros Heq.
  - left. eauto.
  - right. exists e. by inversion Heq.
Qed.

Lemma bind_ok {A B : Type} (m : M A) (f : A → M B) s a s1 :
  m s = (Ok a, s1) → (m ≫= f) s = f a s1.
Proof. unfold mbind, M_bind. by intros ->. Qed.

Lemma bind_raise {A B : Type} (m : M A) (f : A → M B) s e s1 :
  m s = (Raise e, s1) → (m ≫= f) s = (Raise e, s1).
Proof. unfold mbind, M_bind. by intros ->. Qed.

Lemma load2_ok (l : loc) (m : matrix) s :
  heap s !! l = Some (Array2 m) → load2 l s = (Ok m, s).
Proof. intros H. unfold load2, load, mbind, M_bind. by rewrite H. Qed.

Lemma np_dot_run (a b : loc) (A B : matrix) s :
  heap s !! a = Some (Array2 A) → heap s !! b = Some (Array2 B) →
  np.dot a b s =
    if decide (ncols A = nrows B)
    then (Ok (length (heap s)), set_heap (heap s ++ [Array2 (kernel.matmul A B)]) s)
    else (Raise ValueError, s).
Proof.
  intros Ha Hb. unfold np.dot.
  rewrite (bind_ok _ _ _ _ _ (load2_ok _ _ _ Ha)).
  rewrite (bind_ok _ _ _ _ _ (load2_ok _ _ _ Hb)).
  unfold kernel.dot, lift, mbind, M_bind, alloc. by case_decide.
Qed.

Lemma np_add_run (g b : loc) (G : matrix) (v : list float) s :
  heap s !! g = Some (Array2 G) → heap s !! b = Some (Array1 v) →
  ncols G = length v →
  np.add g b s =
    (Ok (length (heap s)), set_heap (heap s ++ [Array2 (kernel.add_bias G v)]) s).
Proof.
  intros Hg Hb Hlen. unfold np.add.
  rewrite (bind_ok _ _ _ _ _ (load2_ok _ _ _ Hg)).
  unfold load, kernel.add_rows, lift, mbind, M_bind, alloc. rewrite Hb.
  by rewrite decide_True.
Qed.

Lemma relu_run (x : loc) (a : ndarray) s :
  heap s !! x = Some a →
  relu x s = (Ok x, set_heap (<[x := kernel.maximum0 a]> (heap s)) s).
Proof.
  intros Hx. unfold relu, np.maximum, load, store, mbind, M_bind, mret, M_ret.
  rewrite Hx. cbn. rewrite Hx. cbn. by rewrite decide_True.
Qed.

Lemma insert_last (h : list ndarray) (a a' : ndarray) :
  <[length h := a']> (h ++ [a]) = h ++ [a'].
Proof. rewrite insert_app_r_alt by lia. by rewrite Nat.sub_diag. Qed.

Lemma lookup_last (h : list ndarray) (a : ndarray) :
  (h ++ [a]) !! length h = Some a.
Proof. by rewrite list_lookup_middle. Qed.

Lemma lookup_last2 (h : list ndarray) (a a' : ndarray) :
  ((h ++ [a]) ++ [a']) !! S (length h) = Some a'.
Proof.
  replace (S (length h)) with (length (h ++ [a]))
    by (rewrite length_app; simpl; lia).
  apply lookup_last.
Qed.

Lemma lookup_grown (h ext : list ndarray) (l : loc) (a : ndarray) :
  h !! l = Some a → (h ++ ext) !! l = Some a.
Proof. intros H. rewrite lookup_app_l; [done | by eapply lookup_lt_Some]. Qed.

(** ** Running the projection *)

(** With a well-shaped input the projection allocates the product, then the
    biased sum, rectifies the latter in place and returns it. *)
Lemma hidden_nodes_run (lx : loc) (X W : matrix) (b : list float) s :
  model s W b → heap s !! lx = Some (Array2 X) → ncols X = nrows W →
  hidden_nodes lx s =
    (Ok (S (length (heap s))),
     set_heap ((heap s ++ [Array2 (kernel.matmul X W)])
                 ++ [Array2 (activation X W b)]) s).
Proof.
  intros (HW & Hb & HwfW & Hlen) HX Hcols. unfold hidden_nodes.
  rewrite (bind_ok _ _ s (input_weights s) s) by done.
  set (s1 := set_heap (heap s ++ [Array2 (kernel.matmul X W)]) s).
  assert (Hdot : np.dot lx (input_weights s) s = (Ok (length (heap s)), s1)).
  { rewrite (np_dot_run _ _ _ _ _ HX HW). by rewrite decide_True. }
  rewrite (bind_ok _ _ _ _ _ Hdot).
  rewrite (bind_ok _ _ s1 (biases s) s1) by done.
  assert (Hadd : np.add (length (heap s)) (biases s) s1 =
            (Ok (length (heap s1)),
             set_heap (heap s1 ++ [Array2 (preactivation X W b)]) s1)).
  { apply np_add_run.
    - apply lookup_last.
    - by apply lookup_grown.
    - by simpl. }
  rewrite (bind_ok _ _ _ _ _ Hadd).
  erewrite bind_ok; last first.
  { apply relu_run. apply lookup_last. }
  unfold mret, M_ret. cbn. rewrite insert_last.
  by rewrite length_app, Nat.add_1_r.
Qed.

(** With a column count other than [input_size] the product raises and
    nothing has been allocated. *)
Lemma hidden_nodes_mismatch (lx : loc) (X W : matrix) (b : list float) s :
  model s W b → heap s !! lx = Some (Array2 X) → ncols X ≠ nrows W →
  hidden_nodes lx s = (Raise ValueError, s).
Proof.
  intros (HW & _) HX Hcols. unfold hidden_nodes.
  rewrite (bind_ok _ _ s (input_weights s) s) by done.
  apply bind_raise. rewrite (np_dot_run _ _ _ _ _ HX HW). by rewrite decide_False.
Qed.

(** ** What a call may change *)

Lemma extends_refl s : extends s s.
Proof. repeat split. exists []. by rewrite app_nil_r. Qed.

Lemma extends_trans s1 s2 s3 : extends s1 s2 → extends s2 s3 → extends s1 s3.
Proof.
  intros (Hw & Hb & Ho & ext & Hh) (Hw' & Hb' & Ho' & ext' & Hh').
  repeat split; try congruence.
  exists (ext ++ ext'). by rewrite Hh', Hh, app_assoc.
Qed.

Lemma extends_set_heap s ext : extends s (set_heap (heap s ++ ext) s).
Proof. repeat split. by exists ext. Qed.

Lemma extends_lookup s s' (l : loc) (a : ndarray) :
  extends s s' → heap s !! l = Some a → heap s' !! l = Some a.
Proof. intros (_ & _ & _ & ext & ->). apply lookup_grown. Qed.

Lemma allocates_extends (m : M loc) s r s' :
  allocates m → m s = (r, s') → extends s s'.
Proof.
  intros Hm Hrun. destruct (Hm _ _ _ Hrun) as [(a & _ & ->) | (e & _ & ->)].
  - apply extends_set_heap.
  - apply extends_refl.
Qed.

Lemma np_dot_allocates (a b : loc) : allocates (np.dot a b).
Proof.
  intros s r s'. unfold np.dot, load2, load, lift, alloc, raise, kernel.dot.
  unfold mbind, M_bind, mret, M_ret.
  intros Hrun. repeat case_match; simplify_eq; eauto.
Qed.

Lemma np_add_allocates (g b : loc) : allocates (np.add g b).
Proof.
  intros s r s'. unfold np.add, load2, load, lift, alloc, raise.
  unfold mbind, M_bind, mret, M_ret.
  intros Hrun. repeat case_match; simplify_eq; eauto.
Qed.

Lemma pinv2_allocates (pinv2_val : matrix → result matrix) (a : loc) :
  allocates (pinv2 pinv2_val a).
Proof.
  intros s r s'. unfold pinv2, load2, load, lift, alloc, raise.
  unfold mbind, M_bind, mret, M_ret.
  intros Hrun. repeat case_match; simplify_eq; eauto.
Qed.

Lemma relu_inv (x : loc) s r s' :
  relu x s = (r, s') →
  (∃ a, r = Ok x ∧ s' = set_heap (<[x := a]> (heap s)) s)
  ∨ (∃ e, r = Raise e ∧ s' = s).
Proof.
  unfold relu, np.maximum, load, store, raise.
  unfold mbind, M_bind, mret, M_ret.
  intros Hrun. repeat case_match; simplify_eq; eauto.
Qed.

(** The projection only adds array objects: the one [relu] overwrites is
    the sum the projection has just created. *)
Lemma hidden_nodes_extends (lx : loc) s r s' :
  hidden_nodes lx s = (r, s') → extends s s'.
Proof.
  unfold hidden_nodes. intros Hrun.
  apply bind_inv in Hrun as [(W & s0 & HW & Hrun) | (e & HW & _)];
    [| by inversion HW].
  inversion HW; subst s0; clear HW.
  apply bind_inv in Hrun as [(g & s1 & Hdot & Hrun) | (e & Hdot & _)];
    [| by eapply allocates_extends; [apply np_dot_allocates |]].
  assert (H01 : extends s s1)
    by (eapply allocates_extends; [apply np_dot_allocates | done]).
  apply bind_inv in Hrun as [(b & s1' & Hb & Hrun) | (e & Hb & _)];
    [| by inversion Hb].
  inversion Hb; subst s1'; clear Hb.
  apply bind_inv in Hrun as [(g' & s2 & Hadd & Hrun) | (e & Hadd & _)];
    [| by eapply extends_trans;
            [| eapply allocates_extends; [apply np_add_allocates | done]]].
  eapply extends_trans; [exact H01 |].
  destruct (np_add_allocates _ _ _ _ _ Hadd) as [(a & Hg' & ->) | (e & ? & _)];
    [| done].
  inversion Hg'; subst g'; clear Hg'.
  apply bind_inv in Hrun as [(h & s3 & Hrelu & Hrun) | (e & Hrelu & _)].
  - inversion Hrun; subst; clear Hrun.
    destruct (relu_inv _ _ _ _ Hrelu) as [(a' & _ & ->) | (e & ? & _)]; [| done].
    unfold set_heap; cbn. rewrite insert_last.
    repeat split. by exists [a'].
  - destruct (relu_inv _ _ _ _ Hrelu) as [(a' & ? & _) | (e' & _ & ->)]; [done |].
    apply extends_set_heap.
Qed.

Lemma predict_extends (lx : loc) s r s' :
  predict lx s = (r, s') → extends s s'.
Proof.
  unfold predict. intros Hrun.
  apply bind_inv in Hrun as [(h & s1 & Hh & Hrun) | (e & Hh & _)];
    [| by eapply hidden_nodes_extends].
  eapply extends_trans; [by eapply hidden_nodes_extends |].
  apply bind_inv in Hrun as [(w & s1' & Hw & Hrun) | (e & Hw & _)].
  - assert (s1' = s1) as ->.
    { unfold global_output_weights in Hw. by case_match; simplify_eq. }
    apply bind_inv in Hrun as [(o & s2 & Hdot & Hrun) | (e & Hdot & _)].
    + inversion Hrun; subst. by eapply allocates_extends; [apply np_dot_allocates |].
    + by eapply allocates_extends; [apply np_dot_allocates |].
  - unfold global_output_weights in Hw. case_match; simplify_eq.
    apply extends_refl.
Qed.

(** ** Running the prediction *)

Lemma predict_run (lx lw : loc) (X W Wout : matrix) (b : list float) s :
  model s W b → heap s !! lx = Some (Array2 X) → ncols X = nrows W →
  output_weights s = Some lw → heap s !! lw = Some (Array2 Wout) →
  predict lx s =
    if decide (ncols W = nrows Wout) then
      (Ok (S (S (length (heap s)))),
       set_heap (((heap s ++ [Array2 (kernel.matmul X W)])
                    ++ [Array2 (activation X W b)])
                   ++ [Array2 (kernel.matmul (activation X W b) Wout)]) s)
    else
      (Raise ValueError,
       set_heap ((heap s ++ [Array2 (kernel.matmul X W)])
                   ++ [Array2 (activation X W b)]) s).
Proof.
  intros Hm HX Hcols Hw HWout. unfold predict.
  rewrite (bind_ok _ _ _ _ _ (hidden_nodes_run _ _ _ _ _ Hm HX Hcols)).
  set (hp := (heap s ++ [Array2 (kernel.matmul X W)])
               ++ [Array2 (activation X W b)]).
  rewrite (bind_ok _ _ (set_heap hp s) lw (set_heap hp s)); last first.
  { unfold global_output_weights. cbn. by rewrite Hw. }
  assert (Hlen : length hp = S (S (length (heap s)))).
  { unfold hp. rewrite !length_app. simpl. lia. }
  assert (Hdot := np_dot_run (S (length (heap s))) lw (activation X W b) Wout
                    (set_heap hp s)).
  cbn in Hdot. rewrite Hlen in Hdot.
  unfold mbind, M_bind at 1. rewrite Hdot.
  - by case_decide.
  - unfold hp. rewrite <- (Nat.add_1_r (length (heap s))).
    replace (length (heap s) + 1)
      with (length (heap s ++ [Array2 (kernel.matmul X W)]))
      by (by rewrite length_app).
    apply lookup_last.
  - unfold hp. rewrite <- app_assoc. by apply lookup_grown.
Qed.

Lemma predict_unfitted (lx : loc) (X W : matrix) (b : list float) s :
  model s W b → heap s !! lx = Some (Array2 X) → ncols X = nrows W →
  output_weights s = None →
  predict lx s =
    (Raise NameError,
     set_heap ((heap s ++ [Array2 (kernel.matmul X W)])
                 ++ [Array2 (activation X W b)]) s).
Proof.
  intros Hm HX Hcols Hw. unfold predict.
  rewrite (bind_ok _ _ _ _ _ (hidden_nodes_run _ _ _ _ _ Hm HX Hcols)).
  apply bind_raise. unfold global_output_weights. cbn. by rewrite Hw.
Qed.

Lemma predict_mismatch (lx : loc) (X W : matrix) (b : list float) s :
  model s W b → heap s !! lx = Some (Array2 X) → ncols X ≠ nrows W →
  predict lx s = (Raise ValueError, s).
Proof.
  intros Hm HX Hcols. unfold predict.
  apply bind_raise. by eapply hidden_nodes_mismatch.
Qed.

(** ** Running the assignment of the output weights *)

Section SolverRuns.

Variable pinv2_val : matrix → result matrix.

Lemma pinv2_run (lH : loc) (H : matrix) s :
  heap s !! lH = Some (Array2 H) →
  pinv2 pinv2_val lH s =
    match pinv2_val H with
    | Ok P => (Ok (length (heap s)), set_heap (heap s ++ [Array2 P]) s)
    | Raise e => (Raise e, s)
    end.
Proof.
  intros HH. unfold pinv2.
  rewrite (bind_ok _ _ _ _ _ (load2_ok _ _ _ HH)).
  unfold lift, mbind, M_bind, alloc. by destruct (pinv2_val H).
Qed.

Lemma solve_run (lH lY : loc) (H Y P : matrix) s :
  heap s !! lH = Some (Array2 H) → heap s !! lY = Some (Array2 Y) →
  pinv2_val H = Ok P →
  solve pinv2_val lH lY s =
    if decide (ncols P = nrows Y) then
      (Ok tt,
       set_output_weights (S (length (heap s)))
         (set_heap ((heap s ++ [Array2 P]) ++ [Array2 (kernel.matmul P Y)]) s))
    else (Raise ValueError, set_heap (heap s ++ [Array2 P]) s).
Proof.
  intros HH HY HP. unfold solve.
  assert (Hpinv := pinv2_run lH H s HH). rewrite HP in Hpinv.
  rewrite (bind_ok _ _ _ _ _ Hpinv).
  assert (Hdot := np_dot_run (length (heap s)) lY P Y
                    (set_heap (heap s ++ [Array2 P]) s)).
  cbn in Hdot. unfold mbind, M_bind. rewrite Hdot.
  - case_decide; [| done].
    unfold assign_output_weights, set_output_weights, set_heap. cbn.
    by rewrite length_app, Nat.add_1_r.
  - apply lookup_last.
  - by apply lookup_grown.
Qed.


(** A run of [solve] that raises has only added array objects; one that
    returns has also rebound [output_weights]. *)
Lemma solve_frame (lH lY : loc) s r s' :
  solve pinv2_val lH lY s = (r, s') →
  match r with
  | Raise _ => extends s s'
  | Ok _ => ∃ l s1, extends s s1 ∧ s' = set_output_weights l s1
  end.
Proof.
  unfold solve. intros Hrun.
  apply bind_inv in Hrun as [(p & s1 & Hp & Hrun) | (e & Hp & ->)];
    [| by eapply allocates_extends; [apply pinv2_allocates |]].
  assert (H01 : extends s s1)
    by (eapply allocates_extends; [apply pinv2_allocates | done]).
  apply bind_inv in Hrun as [(w & s2 & Hdot & Hrun) | (e & Hdot & ->)].
  - assert (H12 : extends s1 s2)
      by (eapply allocates_extends; [apply np_dot_allocates | done]).
    unfold assign_output_weights in Hrun. inversion Hrun; subst.
    exists w, s2. split; [by eapply extends_trans | done].
  - eapply extends_trans; [done |].
    by eapply allocates_extends; [apply np_dot_allocates |].
Qed.

Lemma fit_frame (lX lY : loc) s r s' :
  fit pinv2_val lX lY s = (r, s') →
  match r with
  | Raise _ => extends s s'
  | Ok _ => ∃ l s1, extends s s1 ∧ s' = set_output_weights l s1
  end.
Proof.
  unfold fit. intros Hrun.
  apply bind_inv in Hrun as [(h & s1 & Hh & Hrun) | (e & Hh & ->)];
    [| by eapply hidden_nodes_extends].
  apply hidden_nodes_extends in Hh. apply solve_frame in Hrun.
  destruct r as [[] | e].
  - destruct Hrun as (l & s2 & H12 & ->). exists l, s2.
    split; [by eapply extends_trans | done].
  - by eapply extends_trans.
Qed.

(** Cell 9 as a whole, when the training input has [input_size] columns
    and [pinv2] returns [P] for its hidden activations: four new array
    objects, the last of which [output_weights] is bound to. *)
Lemma fit_run (lX lY : loc) (X Y P W : matrix) (b : list float) s :
  model s W b →
  heap s !! lX = Some (Array2 X) → heap s !! lY = Some (Array2 Y) →
  ncols X = nrows W → pinv2_val (activation X W b) = Ok P →
  ncols P = nrows Y →
  fit pinv2_val lX lY s =
    (Ok tt,
     set_output_weights (S (S (S (length (heap s)))))
       (set_heap ((((heap s ++ [Array2 (kernel.matmul X W)])
                      ++ [Array2 (activation X W b)])
                     ++ [Array2 P])
                    ++ [Array2 (kernel.matmul P Y)]) s)).
Proof.
  intros Hm HX HY Hcols HP Hfit. unfold fit.
  rewrite (bind_ok _ _ _ _ _ (hidden_nodes_run _ _ _ _ _ Hm HX Hcols)).
  set (hp := (heap s ++ [Array2 (kernel.matmul X W)])
               ++ [Array2 (activation X W b)]).
  assert (Hlen : length hp = S (S (length (heap s)))).
  { unfold hp. rewrite !length_app. simpl. lia. }
  rewrite (solve_run (S (length (heap s))) lY (activation X W b) Y P
             (set_heap hp s)); [| apply lookup_last2 | | done].
  - rewrite decide_True by done. unfold set_output_weights, set_heap. cbn.
    by rewrite Hlen.
  - unfold hp. cbn. rewrite <- app_assoc. by apply lookup_grown.
Qed.

End SolverRuns.

(** ** Models across calls *)

Lemma model_extends s s' (W : matrix) (b : list float) :
  model s W b → extends s s' → model s' W b.
Proof.
  intros (HW & Hb & Hwf & Hlen) Hext.
  assert (Hw := Hext). destruct Hw as (Hiw & Hib & _).
  split; [| split; [| split]]; try done.
  - rewrite Hiw. by eapply extends_lookup.
  - rewrite Hib. by eapply extends_lookup.
Qed.

Lemma model_set_output_weights s (l : loc) (W : matrix) (b : list float) :
  model s W b → model (set_output_weights l s) W b.
Proof. by intros (HW & Hb & Hwf & Hlen). Qed.

Lemma returned_hidden_nodes (lx : loc) (X W : matrix) (b : list float) s :
  model s W b → heap s !! lx = Some (Array2 X) →
  returned (hidden_nodes lx) s =
    if decide (ncols X = nrows W) then Ok (Array2 (activation X W b))
    else Raise ValueError.
Proof.
  intros Hm HX. unfold returned. case_decide as Hcols.
  - rewrite (hidden_nodes_run _ _ _ _ _ Hm HX Hcols). cbn.
    by rewrite lookup_last2.
  - by rewrite (hidden_nodes_mismatch _ _ _ _ _ Hm HX Hcols).
Qed.

Lemma returned_predict (lx lw : loc) (X W Wout : matrix) (b : list float) s :
  model s W b → heap s !! lx = Some (Array2 X) →
  output_weights s = Some lw → heap s !! lw = Some (Array2 Wout) →
  returned (predict lx) s =
    if decide (ncols X = nrows W ∧ ncols W = nrows Wout)
    then Ok (Array2 (kernel.matmul (activation X W b) Wout))
    else Raise ValueError.
Proof.
  intros Hm HX Hw HWout. unfold returned.
  destruct (decide (ncols X = nrows W)) as [Hcols | Hcols].
  - rewrite (predict_run _ _ _ _ _ _ _ Hm HX Hcols Hw HWout).
    destruct (decide (ncols W = nrows Wout)) as [Hh | Hh].
    + rewrite decide_True by done. cbn.
      set (hp := (heap s ++ _) ++ _).
      replace (S (S (length (heap s)))) with (length hp)
        by (unfold hp; rewrite !length_app; simpl; lia).
      by rewrite lookup_last.
    + rewrite decide_False by tauto. done.
  - rewrite (predict_mismatch _ _ _ _ _ Hm HX Hcols).
    rewrite decide_False by tauto. done.
Qed.

Lemma pinv2_unit_contract : pinv2_contract pinv2_unit.
Proof.
  intros a p Hwf. unfold pinv2_unit. case_decide as Ha; [| done].
  intros [= <-]. destruct Ha as (_ & -> & ->). done.
Qed.

Lemma demo_model : model demo_state demo_W demo_b.
Proof. repeat split; repeat constructor. Qed.

Lemma demo_fitted_model : model demo_fitted demo_W demo_b.
Proof. repeat split; repeat constructor. Qed.

Lemma unit_model : model unit_state unit_matrix [zero].
Proof. repeat split; repeat constructor. Qed.

Lemma nan_model : model nan_state unit_matrix [zero].
Proof. repeat split; repeat constructor. Qed.

(** * The claims *)

(** ** C1: the projection *)

(** C1, as stated, fails: with weight 1.0, bias 0.0 and an input whose only
    entry is NaN, [hidden_nodes] returns an array whose only entry is NaN,
    and NaN is not at least 0. *)
Lemma hidden_nodes_nan_entry :
  model nan_state unit_matrix [zero]
  ∧ wf_matrix nan_matrix
  ∧ heap nan_state !! 2 = Some (Array2 nan_matrix)
  ∧ ncols nan_matrix = nrows unit_matrix
  ∧ returned (hidden_nodes 2) nan_state = Ok (Array2 nan_matrix)
  ∧ ¬ all_entries nonneg nan_matrix.
Proof.
  split; [apply nan_model |]. split; [by repeat constructor |].
  repeat split.
  intros Hall. unfold all_entries in Hall. simpl in Hall.
  apply Forall_inv, Forall_inv in Hall. by apply (nan_not_nonneg nan).
Qed.

(** C1 (amended): for every input array [X] of shape [(n, input_size)],
    [hidden_nodes] returns a new array holding the elementwise
    [maximum(_, 0)] of [X·input_weights + biases]; it has shape
    [(n, hidden_size)]; every entry of it is NaN or at least 0, and all are
    at least 0 when [X·input_weights + biases] has no NaN entry. *)
Theorem hidden_nodes_rectified (lx : loc) (X W : matrix) (b : list float) s :
  model s W b → wf_matrix X → heap s !! lx = Some (Array2 X) →
  ncols X = nrows W →
  ∃ lh s',
    hidden_nodes lx s = (Ok lh, s')
    ∧ heap s' !! lh = Some (Array2 (activation X W b))
    ∧ activation X W b
      = map_matrix (λ v, maximum v zero)
          (kernel.add_bias (kernel.matmul X W) b)
    ∧ wf_matrix (activation X W b)
    ∧ shape (Array2 (activation X W b)) = [nrows X; ncols W]
    ∧ all_entries (λ v, isnan v = true ∨ nonneg v) (activation X W b)
    ∧ (all_entries (λ v, isnan v = false) (preactivation X W b) →
       all_entries nonneg (activation X W b)).
Proof.
  intros Hm HwfX HX Hcols.
  eexists _, _. split; [by apply hidden_nodes_run |].
  split; [apply lookup_last2 |].
  split; [done |].
  destruct Hm as (_ & _ & _ & Hlen).
  destruct (wf_activation X W b HwfX Hlen) as (Hwf & Hr & Hc).
  split; [done |]. split; [done |]. split.
  - apply (all_entries_map (λ _, True)); [| apply all_entries_True].
    intros x _. destruct (maximum_zero_cases x) as [[Hn ->] | [_ Hp]]; eauto.
  - apply all_entries_map. intros x Hx.
    destruct (maximum_zero_cases x) as [[Hn _] | [_ Hp]]; [congruence | done].
Qed.

Lemma hidden_nodes_rectified_witness :
  ∃ lh s',
    hidden_nodes 2 demo_state = (Ok lh, s')
    ∧ heap s' !! lh = Some (Array2 (activation demo_X demo_W demo_b))
    ∧ activation demo_X demo_W demo_b
      = map_matrix (λ v, maximum v zero)
          (kernel.add_bias (kernel.matmul demo_X demo_W) demo_b)
    ∧ wf_matrix (activation demo_X demo_W demo_b)
    ∧ shape (Array2 (activation demo_X demo_W demo_b))
      = [nrows demo_X; ncols demo_W]
    ∧ all_entries (λ v, isnan v = true ∨ nonneg v)
        (activation demo_X demo_W demo_b)
    ∧ (all_entries (λ v, isnan v = false)
         (preactivation demo_X demo_W demo_b) →
       all_entries nonneg (activation demo_X demo_W demo_b)).
Proof.
  apply (hidden_nodes_rectified 2 demo_X demo_W demo_b demo_state).
  - repeat split; repeat constructor.
  - repeat split; repeat constructor.
  - reflexivity.
  - reflexivity.
Defined.

Example hidden_nodes_demo :
  returned (hidden_nodes 2) demo_state
  = Ok (Array2 (Matrix 1 2 [[of_Z 6; zero]])).
Proof. vm_compute. reflexivity. Qed.

(** ** C10: [relu] works in place *)

(** C10: for every array [a] held by the object [x], [relu x] returns the
    reference [x] itself, and afterwards that same object holds the
    elementwise [maximum(_, 0)] of [a]; no new object is created and no
    other object changes. *)
Theorem relu_in_place (x : loc) (a : ndarray) s :
  heap s !! x = Some a →
  ∃ s',
    relu x s = (Ok x, s')
    ∧ heap s' !! x = Some (map_ndarray (λ v, maximum v zero) a)
    ∧ length (heap s') = length (heap s)
    ∧ (∀ l, l ≠ x → heap s' !! l = heap s !! l)
    ∧ input_weights s' = input_weights s
    ∧ biases s' = biases s
    ∧ output_weights s' = output_weights s.
Proof.
  intros Hx. eexists. split; [by apply relu_run |]. cbn.
  split; [apply list_lookup_insert_eq; by eapply lookup_lt_Some |].
  split; [apply length_insert |].
  split; [| done].
  intros l Hl. by apply list_lookup_insert_ne.
Qed.

Lemma relu_in_place_witness :
  ∃ s',
    relu 2 demo_state = (Ok 2, s')
    ∧ heap s' !! 2
      = Some (map_ndarray (λ v, maximum v zero) (Array2 demo_X))
    ∧ length (heap s') = length (heap demo_state)
    ∧ (∀ l, l ≠ 2 → heap s' !! l = heap demo_state !! l)
    ∧ input_weights s' = input_weights demo_state
    ∧ biases s' = biases demo_state
    ∧ output_weights s' = output_weights demo_state.
Proof. apply (relu_in_place 2 (Array2 demo_X) demo_state). reflexivity. Defined.

(** [relu] applied to the weights themselves overwrites the negative one. *)
Example relu_overwrites_argument :
  heap (relu 0 demo_state).2 !! 0
  = Some (Array2 (Matrix 2 2 [[f1; zero]; [f2; f1]])).
Proof. reflexivity. Qed.

(** ** C8: the projection is deterministic and leaves the state alone *)

(** C8: two calls of [hidden_nodes] on inputs with the same contents, in
    states whose [input_weights] and [biases] have the same contents,
    return arrays with the same contents (or raise the same exception); and
    a call leaves every existing array object, the input among them, and
    every module-level name as it was. *)
Theorem hidden_nodes_deterministic_pure
    (lx lx' : loc) (X W : matrix) (b : list float) s t r s' :
  model s W b → model t W b →
  heap s !! lx = Some (Array2 X) → heap t !! lx' = Some (Array2 X) →
  hidden_nodes lx s = (r, s') →
  returned (hidden_nodes lx) s = returned (hidden_nodes lx') t
  ∧ heap s' !! lx = Some (Array2 X)
  ∧ (∀ l a, heap s !! l = Some a → heap s' !! l = Some a)
  ∧ input_weights s' = input_weights s
  ∧ biases s' = biases s
  ∧ output_weights s' = output_weights s
  ∧ returned (hidden_nodes lx) s' = returned (hidden_nodes lx) s.
Proof.
  intros Hs Ht HX HX' Hrun.
  assert (Hext := hidden_nodes_extends _ _ _ _ Hrun).
  assert (Hs' := model_extends _ _ _ _ Hs Hext).
  assert (HXs' := extends_lookup _ _ _ _ Hext HX).
  rewrite (returned_hidden_nodes _ _ _ _ _ Hs HX).
  rewrite (returned_hidden_nodes _ _ _ _ _ Ht HX').
  rewrite (returned_hidden_nodes _ _ _ _ _ Hs' HXs').
  destruct Hext as (Hiw & Hib & How & ext & Hheap).
  repeat split; try done.
  intros l a Hl. rewrite Hheap. by apply lookup_grown.
Qed.

Lemma hidden_nodes_deterministic_pure_witness :
  returned (hidden_nodes 2) demo_state
  = returned (hidden_nodes 2) demo_projected
  ∧ heap demo_projected !! 2 = Some (Array2 demo_X)
  ∧ (∀ l a, heap demo_state !! l = Some a → heap demo_projected !! l = Some a)
  ∧ input_weights demo_projected = input_weights demo_state
  ∧ biases demo_projected = biases demo_state
  ∧ output_weights demo_projected = output_weights demo_state
  ∧ returned (hidden_nodes 2) demo_projected
    = returned (hidden_nodes 2) demo_state.
Proof.
  apply (hidden_nodes_deterministic_pure 2 2 demo_X demo_W demo_b
           demo_state demo_projected (hidden_nodes 2 demo_state).1
           demo_projected).
  - repeat split; repeat constructor.
  - repeat split; repeat constructor.
  - reflexivity.
  - reflexivity.
  - reflexivity.
Defined.

(** ** C7: the input weights and the biases are never written *)

(** C7: in a constructed model, whatever [hidden_nodes], [predict], the
    assignment of the output weights ([solve]) or the whole of cell 9
    ([fit]) return or raise, [input_weights] and [biases] still name arrays
    with the contents they had; the projection and the prediction leave
    every existing array object and [output_weights] as they were, and so
    does an assignment that raised. *)
Theorem parameters_never_mutated
    (pinv2_val : matrix → result matrix) (W : matrix) (b : list float) s :
  model s W b →
  (∀ lx r s', hidden_nodes lx s = (r, s') → model s' W b ∧ extends s s')
  ∧ (∀ lx r s', predict lx s = (r, s') → model s' W b ∧ extends s s')
  ∧ (∀ lH lY r s', solve pinv2_val lH lY s = (r, s') →
       model s' W b ∧ (∀ e, r = Raise e → extends s s'))
  ∧ (∀ lX lY r s', fit pinv2_val lX lY s = (r, s') →
       model s' W b ∧ (∀ e, r = Raise e → extends s s')).
Proof.
  intros Hm. split; [| split; [| split]].
  - intros lx r s' H. apply hidden_nodes_extends in H.
    split; [by eapply model_extends | done].
  - intros lx r s' H. apply predict_extends in H.
    split; [by eapply model_extends | done].
  - intros lH lY r s' H. apply solve_frame in H. destruct r as [[] | e].
    + destruct H as (l & s1 & Hext & ->). split; [| done].
      apply model_set_output_weights. by eapply model_extends.
    + split; [by eapply model_extends | done].
  - intros lX lY r s' H. apply fit_frame in H. destruct r as [[] | e].
    + destruct H as (l & s1 & Hext & ->). split; [| done].
      apply model_set_output_weights. by eapply model_extends.
    + split; [by eapply model_extends | done].
Qed.

Lemma parameters_never_mutated_witness :
  (∀ lx r s', hidden_nodes lx unit_state = (r, s') →
     model s' unit_matrix [zero] ∧ extends unit_state s')
  ∧ (∀ lx r s', predict lx unit_state = (r, s') →
       model s' unit_matrix [zero] ∧ extends unit_state s')
  ∧ (∀ lH lY r s', solve pinv2_unit lH lY unit_state = (r, s') →
       model s' unit_matrix [zero] ∧ (∀ e, r = Raise e → extends unit_state s'))
  ∧ (∀ lX lY r s', fit pinv2_unit lX lY unit_state = (r, s') →
       model s' unit_matrix [zero] ∧ (∀ e, r = Raise e → extends unit_state s')).
Proof.
  apply (parameters_never_mutated pinv2_unit unit_matrix [zero] unit_state).
  repeat split; repeat constructor.
Defined.

(** A [solve] that raises for targets with too many rows keeps the unbound
    [output_weights] unbound and the weights in place. *)
Example solve_failure_keeps_state :
  (solve pinv2_unit 2 5 unit_state).1 = Raise ValueError
  ∧ output_weights (solve pinv2_unit 2 5 unit_state).2 = None
  ∧ heap (solve pinv2_unit 2 5 unit_state).2 !! 0 = Some (Array2 unit_matrix).
Proof. vm_compute. done. Qed.

(** ** C3: the prediction *)

(** C3: in a fitted model (output weights [Wout] with [hidden_size] rows)
    and for every input [X] with [input_size] columns, [predict] returns a
    new array holding the product of what [hidden_nodes] returns on [X]
    with [Wout], of shape [(n, n_classes)]; the hidden activation it
    multiplies is an array object created by this very call. *)
Theorem predict_projects_then_multiplies
    (lx lw : loc) (X W Wout : matrix) (b : list float) s :
  model s W b → output_weights s = Some lw →
  heap s !! lw = Some (Array2 Wout) → ncols W = nrows Wout →
  heap s !! lx = Some (Array2 X) → wf_matrix X → ncols X = nrows W →
  ∃ l lh s' H,
    predict lx s = (Ok l, s')
    ∧ returned (hidden_nodes lx) s = Ok (Array2 H)
    ∧ H = activation X W b
    ∧ heap s' !! l = Some (Array2 (kernel.matmul H Wout))
    ∧ wf_matrix (kernel.matmul H Wout)
    ∧ shape (Array2 (kernel.matmul H Wout)) = [nrows X; ncols Wout]
    ∧ length (heap s) ≤ lh
    ∧ heap s' !! lh = Some (Array2 H)
    ∧ extends s s'.
Proof.
  intros Hm Hw HWout Hh HX HwfX Hcols.
  assert (Hrun := predict_run _ _ _ _ _ _ _ Hm HX Hcols Hw HWout).
  rewrite decide_True in Hrun by done.
  assert (Hret := returned_hidden_nodes _ _ _ _ _ Hm HX).
  rewrite decide_True in Hret by done.
  assert (Hlen : length b = ncols W) by (by destruct Hm as (_ & _ & _ & ?)).
  destruct (wf_activation X W b HwfX Hlen) as (Hwf & Hr & Hc).
  destruct (wf_matmul (activation X W b) Wout Hwf) as (Hwf' & Hr' & Hc').
  exists (S (S (length (heap s)))), (S (length (heap s))).
  eexists _, (activation X W b).
  split; [exact Hrun |]. split; [exact Hret |]. split; [done |].
  split.
  { cbn. set (hp := (heap s ++ _) ++ _).
    replace (S (S (length (heap s)))) with (length hp)
      by (unfold hp; rewrite !length_app; simpl; lia).
    apply lookup_last. }
  split; [done |].
  split; [simpl; congruence |].
  split; [lia |].
  split.
  { cbn. apply lookup_grown. apply lookup_last2. }
  by eapply predict_extends.
Qed.

Lemma predict_projects_then_multiplies_witness :
  ∃ l lh s' H,
    predict 2 demo_fitted = (Ok l, s')
    ∧ returned (hidden_nodes 2) demo_fitted = Ok (Array2 H)
    ∧ H = activation demo_X demo_W demo_b
    ∧ heap s' !! l = Some (Array2 (kernel.matmul H demo_Wout))
    ∧ wf_matrix (kernel.matmul H demo_Wout)
    ∧ shape (Array2 (kernel.matmul H demo_Wout))
      = [nrows demo_X; ncols demo_Wout]
    ∧ length (heap demo_fitted) ≤ lh
    ∧ heap s' !! lh = Some (Array2 H)
    ∧ extends demo_fitted s'.
Proof.
  apply (predict_projects_then_multiplies 2 4 demo_X demo_W demo_Wout demo_b
           demo_fitted).
  - repeat split; repeat constructor.
  - reflexivity.
  - reflexivity.
  - reflexivity.
  - reflexivity.
  - repeat split; repeat constructor.
  - reflexivity.
Defined.

Example predict_demo :
  returned (predict 2) demo_fitted = Ok (Array2 (Matrix 1 1 [[of_Z 6]])).
Proof. vm_compute. reflexivity. Qed.

(** ** C4: predicting before the output weights exist *)

(** C4, as stated, fails: in a model that was never fitted, [predict] on an
    input with three columns where [input_size] is two raises the
    [ValueError] of the projection, not the [NameError] of the missing
    [output_weights]. *)
Lemma predict_unfitted_shape_first :
  model demo_state demo_W demo_b
  ∧ output_weights demo_state = None
  ∧ heap demo_state !! 3 = Some (Array2 demo_wide)
  ∧ (predict 3 demo_state).1 = Raise ValueError
  ∧ (predict 3 demo_state).1 ≠ Raise NameError.
Proof. split; [apply demo_model |]. repeat split. discriminate. Qed.

(** C4 (amended): in a constructed model whose [output_weights] was never
    assigned, [predict] never returns: it raises [NameError] for an input
    with [input_size] columns and [ValueError] for any other input. *)
Theorem predict_unfitted_raises
    (lx : loc) (X W : matrix) (b : list float) s :
  model s W b → output_weights s = None →
  heap s !! lx = Some (Array2 X) →
  ∃ s',
    predict lx s =
      (Raise (if decide (ncols X = nrows W) then NameError else ValueError), s')
    ∧ extends s s'.
Proof.
  intros Hm Hw HX. case_decide as Hcols.
  - eexists. split; [by apply predict_unfitted |].
    rewrite <- app_assoc. apply extends_set_heap.
  - exists s. split; [by eapply predict_mismatch | apply extends_refl].
Qed.

Lemma predict_unfitted_raises_witness :
  ∃ s',
    predict 2 demo_state =
      (Raise (if decide (ncols demo_X = nrows demo_W)
              then NameError else ValueError), s')
    ∧ extends demo_state s'.
Proof.
  apply (predict_unfitted_raises 2 demo_X demo_W demo_b demo_state).
  - repeat split; repeat constructor.
  - reflexivity.
  - reflexivity.
Defined.

Example predict_unfitted_demo :
  (predict 2 demo_state).1 = Raise NameError.
Proof. reflexivity. Qed.

(** ** C5: shapes that do not fit *)




(** In the witness [pinv2] returns, so the exception is the [ValueError]
    of the shapes. *)
Example solve_mismatch_demo :
  (solve pinv2_unit 2 5 unit_state).1 = Raise ValueError.
Proof. reflexivity. Qed.

(** ** C2: the output weights *)






(** On the array with singular values 2.0 and [2^-70] the smaller one falls
    below the cut-off and is treated as zero: the pseudo-inverse has the
    single entry 0.5, it satisfies the four Moore-Penrose equations for the
    array with that singular value set to zero, and the output weights for
    one-hot targets are the pseudo-inverse itself. *)
Example pinv2_cut_off :
  scipy.rank [f2; tiny] f2 = 1
  ∧ scipy.pinv2_of_svd svd_wide wide_H = Ok wide_P
  ∧ (let A := Matrix 2 3 [[f2; zero; zero]; [zero; zero; zero]] in
     kernel.matmul (kernel.matmul A wide_P) A = A
     ∧ kernel.matmul (kernel.matmul wide_P A) wide_P = wide_P
     ∧ la.transpose (kernel.matmul A wide_P) = kernel.matmul A wide_P
     ∧ la.transpose (kernel.matmul wide_P A) = kernel.matmul wide_P A)
  ∧ returned (solve (scipy.pinv2_of_svd svd_wide) 2 3
                ≫= λ _, global_output_weights) svd_state
    = Ok (Array2 wide_P).
Proof. vm_compute. repeat split. Qed.

(** Cell 9 on the one-feature model: the hidden activation of [[1.0]] is
    [[1.0]], and the output weights are the targets. *)
Example fit_demo :
  (fit pinv2_unit 2 3 unit_state).1 = Ok tt
  ∧ output_weights (fit pinv2_unit 2 3 unit_state).2 = Some 9
  ∧ heap (fit pinv2_unit 2 3 unit_state).2 !! 9 = Some (Array2 onehot_a).
Proof. vm_compute. done. Qed.

(** ** C6: fitting again *)

Lemma solve_model
    (pinv2_val : matrix → result matrix) (lH lY : loc) (W : matrix)
    (b : list float) s r s' :
  model s W b → solve pinv2_val lH lY s = (r, s') → model s' W b.
Proof.
  intros Hm Hrun. apply solve_frame in Hrun. destruct r as [[] | e].
  - destruct Hrun as (l & s1 & Hext & ->).
    apply model_set_output_weights. by eapply model_extends.
  - by eapply model_extends.
Qed.

(** C6: let [s] be any state of the model, for instance the one an earlier
    assignment from other data left, and [t] a state of the same model in
    which that earlier assignment never happened.  Assigning the output
    weights from the same [H] and [Y] in both rebinds [output_weights] to
    arrays with the same contents, [np.dot(pinv2(H), Y)], and afterwards
    [predict] returns the same on inputs with the same contents: nothing of
    the earlier output weights is left. *)
Theorem refit_replaces_output_weights
    (pinv2_val : matrix → result matrix) (lH lY lH' lY' : loc)
    (H Y P W : matrix) (b : list float) s t :
  pinv2_contract pinv2_val → model s W b → model t W b →
  heap s !! lH = Some (Array2 H) → heap s !! lY = Some (Array2 Y) →
  heap t !! lH' = Some (Array2 H) → heap t !! lY' = Some (Array2 Y) →
  wf_matrix H → nrows H = nrows Y → pinv2_val H = Ok P →
  ∃ l l' s2 t2,
    solve pinv2_val lH lY s = (Ok tt, s2)
    ∧ solve pinv2_val lH' lY' t = (Ok tt, t2)
    ∧ output_weights s2 = Some l ∧ output_weights t2 = Some l'
    ∧ heap s2 !! l = Some (Array2 (kernel.matmul P Y))
    ∧ heap t2 !! l' = Some (Array2 (kernel.matmul P Y))
    ∧ (∀ old, output_weights s = Some old → heap s !! old ≠ None → l ≠ old)
    ∧ (∀ lx lx' X,
         heap s2 !! lx = Some (Array2 X) → heap t2 !! lx' = Some (Array2 X) →
         returned (predict lx) s2 = returned (predict lx') t2).
Proof.
  intros Hc Hs Ht HH HY HH' HY' Hwf Hrows HP.
  destruct (Hc H P Hwf HP) as (_ & _ & HcP).
  assert (Hfit : ncols P = nrows Y) by congruence.
  assert (Hrun := solve_run pinv2_val _ _ _ _ _ s HH HY HP).
  assert (Hrun' := solve_run pinv2_val _ _ _ _ _ t HH' HY' HP).
  rewrite decide_True in Hrun, Hrun' by done.
  assert (Hs2 := solve_model _ _ _ _ _ _ _ _ Hs Hrun).
  assert (Ht2 := solve_model _ _ _ _ _ _ _ _ Ht Hrun').
  eexists _, _, _, _.
  split; [exact Hrun |]. split; [exact Hrun' |].
  split; [reflexivity |]. split; [reflexivity |].
  assert (Hl : ∀ u, heap (set_output_weights (S (length (heap u)))
                      (set_heap ((heap u ++ [Array2 P])
                                   ++ [Array2 (kernel.matmul P Y)]) u))
                    !! S (length (heap u))
                    = Some (Array2 (kernel.matmul P Y))).
  { intros u. cbn. apply lookup_last2. }
  split; [apply Hl |]. split; [apply Hl |]. split.
  { intros old _ Hold <-. apply Hold. apply lookup_ge_None. lia. }
  intros lx lx' X HX HX'.
  rewrite (returned_predict _ _ _ _ _ _ _ Hs2 HX eq_refl (Hl s)).
  by rewrite (returned_predict _ _ _ _ _ _ _ Ht2 HX' eq_refl (Hl t)).
Qed.

Lemma refit_replaces_output_weights_witness :
  ∃ l l' s2 t2,
    solve pinv2_unit 2 4 unit_fitted = (Ok tt, s2)
    ∧ solve pinv2_unit 2 4 unit_state = (Ok tt, t2)
    ∧ output_weights s2 = Some l ∧ output_weights t2 = Some l'
    ∧ heap s2 !! l = Some (Array2 (kernel.matmul unit_matrix onehot_b))
    ∧ heap t2 !! l' = Some (Array2 (kernel.matmul unit_matrix onehot_b))
    ∧ (∀ old, output_weights unit_fitted = Some old →
         heap unit_fitted !! old ≠ None → l ≠ old)
    ∧ (∀ lx lx' X,
         heap s2 !! lx = Some (Array2 X) → heap t2 !! lx' = Some (Array2 X) →
         returned (predict lx) s2 = returned (predict lx') t2).
Proof.
  apply (refit_replaces_output_weights pinv2_unit 2 4 2 4
           unit_matrix onehot_b unit_matrix unit_matrix [zero]
           unit_fitted unit_state).
  - exact pinv2_unit_contract.
  - repeat split; repeat constructor.
  - repeat split; repeat constructor.
  - reflexivity.
  - reflexivity.
  - reflexivity.
  - reflexivity.
  - repeat split; repeat constructor.
  - reflexivity.
  - reflexivity.
Defined.

(** The first fit maps the input to the first class, the second fit to the
    second class, with nothing left of the first. *)
Example refit_demo :
  returned (predict 2) unit_fitted = Ok (Array2 onehot_a)
  ∧ returned (predict 2) (solve pinv2_unit 2 4 unit_fitted).2
    = Ok (Array2 onehot_b).
Proof. vm_compute. done. Qed.

(** ** C9: the scaler is fitted anew on each split *)

(** C9: cell 3 transforms the training features with the statistics
    computed on the training features and the test features with the
    statistics computed on the test features; the scaler is left holding
    the test statistics, and the scaled test features do not depend on the
    training features at all.  (A plain [transform] of the test features
    after the training fit would have applied the training statistics; the
    cell never does that.) *)
Theorem scaler_refit_per_split
    {stats : Type} (compute_stats : matrix → stats)
    (standardize : stats → matrix → matrix) (train test : matrix) :
  scaler.cell3 compute_stats standardize train test
  = (Some (standardize (compute_stats train) train),
     Some (standardize (compute_stats test) test),
     Some (compute_stats test))
  ∧ (∀ train',
       (scaler.cell3 compute_stats standardize train' test).1.2
       = (scaler.cell3 compute_stats standardize train test).1.2)
  ∧ scaler.transform standardize test
      (scaler.fit_transform compute_stats standardize train scaler.new).2
    = Some (standardize (compute_stats train) test).
Proof. repeat split. Qed.

(** With a scaler that records the data it was fitted on and a transform
    that returns the statistics it was given, each output of cell 3 shows
    the split whose statistics were applied to it. *)
Example cell3_traces_statistics :
  scaler.cell3 (λ data, data) (λ st _, st) demo_X demo_wide
  = (Some demo_X, Some demo_wide, Some demo_wide).
Proof. reflexivity. Qed.

(** * Further properties of the cells *)

(** ** The order on entries *)

Lemma geb_nan_l (x : float) : geb nan x = false.
Proof. by destruct x. Qed.

Lemma geb_nan_r (x : float) : geb x nan = false.
Proof. by destruct x. Qed.

Lemma geb_not_nan (x y : float) :
  geb x y = true → isnan x = false ∧ isnan y = false.
Proof. destruct x, y; try done. Qed.

Lemma geb_refl (x : float) : isnan x = false → geb x x = true.
Proof.
  unfold geb, SFleb. destruct x as [s | s | | s m e]; try done; simpl.
  - by destruct s.
  - destruct s; rewrite Z.compare_refl, Pos.compare_cont_refl; done.
Qed.

Lemma geb_total (x y : float) :
  isnan x = false → isnan y = false → geb x y = false → geb y x = true.
Proof.
  unfold geb, SFleb.
  destruct x as [s | s | | s m e], y as [s' | s' | | s' m' e'];
    try done; simpl; try (by destruct s); try (by destruct s');
    try (by destruct s, s').
  intros _ _.
  change (Pos.compare_cont Eq m m') with (Pos.compare m m').
  change (Pos.compare_cont Eq m' m) with (Pos.compare m' m).
  destruct s, s'; try done; simpl;
    destruct (Z.compare_spec e e'), (Z.compare_spec e' e);
    simpl; try done; try lia;
    destruct (Pos.compare_spec m m'), (Pos.compare_spec m' m);
    simpl; try done; try lia.
Qed.

Lemma geb_trans (x y z : float) :
  geb x y = true → geb y z = true → geb x z = true.
Proof.
  unfold geb, SFleb.
  destruct x as [s | s | | s m e], y as [s' | s' | | s' m' e'],
    z as [s'' | s'' | | s'' m'' e''];
    try done; simpl;
    try (by destruct s); try (by destruct s'); try (by destruct s'');
    try (by destruct s, s'); try (by destruct s, s'');
    try (by destruct s', s''); try (by destruct s, s', s'').
  change (Pos.compare_cont Eq m'' m') with (Pos.compare m'' m').
  change (Pos.compare_cont Eq m' m) with (Pos.compare m' m).
  change (Pos.compare_cont Eq m'' m) with (Pos.compare m'' m).
  destruct s, s', s''; try done; simpl;
    destruct (Z.compare_spec e'' e'), (Z.compare_spec e' e),
      (Z.compare_spec e'' e); simpl; try done; try lia;
    destruct (Pos.compare_spec m'' m'), (Pos.compare_spec m' m),
      (Pos.compare_spec m'' m); simpl; try done; try lia.
Qed.

(** ** [np.argmax] *)

(** The loop keeps a largest entry and the first index that holds it. *)
Lemma argmax_loop_spec (ip : list float) :
  ∀ (mp : float) (max_ind i : nat),
    isnan mp = false → no_nan ip → max_ind < i →
    ∃ m,
      ((argmax_loop mp max_ind i ip = max_ind ∧ m = mp)
       ∨ (i ≤ argmax_loop mp max_ind i ip
          ∧ ip !! (argmax_loop mp max_ind i ip - i) = Some m
          ∧ geb mp m = false))
      ∧ geb m mp = true
      ∧ Forall (λ x, geb m x = true) ip
      ∧ (∀ j x, i + j < argmax_loop mp max_ind i ip → ip !! j = Some x →
           geb x m = false).
Proof.
  induction ip as [| x ip IH]; intros mp max_ind i Hmp Hnn Hlt; simpl.
  { exists mp. split; [by left |]. split; [by apply geb_refl |].
    split; [done |]. intros j y _ Hy. done. }
  apply Forall_cons in Hnn as [Hx Hnn].
  destruct (geb mp x) eqn:Hcmp; simpl.
  - destruct (IH mp max_ind (S i) Hmp Hnn ltac:(lia))
      as (m & Hk & Hm & Hall & Hfirst).
    set (k := argmax_loop mp max_ind (S i) ip) in *.
    exists m. split; [| split; [done | split]].
    + destruct Hk as [[Hk ->] | (Hik & Hlook & Hgt)]; [by left | right].
      split; [lia |]. split; [| done].
      replace (k - i) with (S (k - S i)) by lia. done.
    + apply Forall_cons. split; [by eapply geb_trans | done].
    + intros j y Hj Hy. destruct j as [| j]; simpl in Hy.
      * injection Hy as <-.
        destruct Hk as [[Hk ->] | (Hik & Hlook & Hgt)]; [lia |].
        destruct (geb x m) eqn:Hxm; [| done].
        by rewrite (geb_trans mp x m) in Hgt.
      * apply (Hfirst j); [lia | done].
  - rewrite Hx.
    destruct (IH x i (S i) Hx Hnn ltac:(lia))
      as (m & Hk & Hm & Hall & Hfirst).
    set (k := argmax_loop x i (S i) ip) in *.
    assert (Hxmp : geb x mp = true) by (by apply geb_total).
    exists m. split; [| split; [by eapply geb_trans | split]].
    + right. destruct Hk as [[Hk ->] | (Hik & Hlook & Hgt)].
      * rewrite Hk, Nat.sub_diag. split; [lia | done].
      * split; [lia |]. replace (k - i) with (S (k - S i)) by lia.
        split; [done |]. destruct (geb mp m) eqn:Hmpm; [| done].
        by rewrite (geb_trans mp m x) in Hcmp.
    + by apply Forall_cons.
    + intros j y Hj Hy. destruct j as [| j]; simpl in Hy.
      * injection Hy as <-.
        destruct Hk as [[Hk ->] | (Hik & Hlook & Hgt)]; [lia | done].
      * apply (Hfirst j); [lia | done].
Qed.

Lemma argmax_spec (v : list float) :
  v ≠ [] → no_nan v →
  ∃ k m,
    argmax v = Ok k
    ∧ v !! k = Some m
    ∧ Forall (λ x, geb m x = true) v
    ∧ (∀ j x, j < k → v !! j = Some x → geb x m = false).
Proof.
  destruct v as [| x ip]; [done |]. intros _ Hnn.
  apply Forall_cons in Hnn as [Hx Hnn]. simpl. rewrite Hx.
  destruct (argmax_loop_spec ip x 0 1 Hx Hnn ltac:(lia))
    as (m & Hk & Hm & Hall & Hfirst).
  set (k := argmax_loop x 0 1 ip) in *.
  exists k, m. split; [done |].
  destruct Hk as [[Hk ->] | (Hik & Hlook & Hgt)].
  - rewrite Hk. split; [done |]. split; [by apply Forall_cons |].
    intros j y Hj. lia.
  - split; [by replace k with (S (k - 1)) by lia |].
    split; [by apply Forall_cons |].
    intros j y Hj Hy. destruct j as [| j]; simpl in Hy.
    + by injection Hy as <-.
    + apply (Hfirst j); [lia | done].
Qed.

(** X2: on a non-empty row without NaN, [np.argmax] returns an index of
    the row; the entry there is at least every entry of the row, and every
    entry before it is strictly smaller: the first index of a largest
    entry. *)
Theorem argmax_first_largest (v : list float) :
  v ≠ [] → no_nan v →
  ∃ k m,
    argmax v = Ok k
    ∧ v !! k = Some m
    ∧ Forall (λ x, geb m x = true) v
    ∧ (∀ j x, j < k → v !! j = Some x → geb x m = false).
Proof. apply argmax_spec. Qed.

Lemma argmax_first_largest_witness :
  ∃ k m,
    argmax [f1; f2; fm3; f2] = Ok k
    ∧ [f1; f2; fm3; f2] !! k = Some m
    ∧ Forall (λ x, geb m x = true) [f1; f2; fm3; f2]
    ∧ (∀ j x, j < k → [f1; f2; fm3; f2] !! j = Some x → geb x m = false).
Proof.
  apply (argmax_first_largest [f1; f2; fm3; f2]).
  - discriminate.
  - repeat constructor.
Defined.

Lemma argmax_loop_nan (ip : list float) :
  ∀ (mp : float) (max_ind i k : nat) (x : float),
    ip !! k = Some x → isnan x = true →
    (∀ j y, j < k → ip !! j = Some y → isnan y = false) →
    argmax_loop mp max_ind i ip = i + k.
Proof.
  induction ip as [| x0 ip IH]; intros mp max_ind i k x Hk Hx Hbefore;
    [done |].
  destruct k as [| k]; simpl in *.
  - injection Hk as ->. destruct x; try done.
  - assert (Hx0 : isnan x0 = false) by (apply (Hbefore 0); [lia | done]).
    assert (Hrest : ∀ j y, j < k → ip !! j = Some y → isnan y = false).
    { intros j y Hj Hy. apply (Hbefore (S j)); [lia | done]. }
    destruct (geb mp x0); simpl.
    + rewrite (IH mp max_ind (S i) k x); [lia | done..].
    + rewrite Hx0. rewrite (IH x0 i (S i) k x); [lia | done..].
Qed.

(** X3: when the row holds a NaN, [np.argmax] returns the index of the
    first NaN, whatever the other entries are. *)
Theorem argmax_first_nan (v : list float) (k : nat) (x : float) :
  v !! k = Some x → isnan x = true →
  (∀ j y, j < k → v !! j = Some y → isnan y = false) →
  argmax v = Ok k.
Proof.
  destruct v as [| x0 ip]; [done |]. intros Hk Hx Hbefore.
  destruct k as [| k]; simpl in *.
  - injection Hk as ->. by rewrite Hx.
  - rewrite (Hbefore 0 x0) by (done || lia).
    rewrite (argmax_loop_nan ip x0 0 1 k x); [done | done | done |].
    intros j y Hj Hy. apply (Hbefore (S j)); [lia | done].
Qed.

Lemma argmax_first_nan_witness : argmax [fm3; nan; f2; nan] = Ok 1.
Proof.
  apply (argmax_first_nan [fm3; nan; f2; nan] 1 nan).
  - reflexivity.
  - reflexivity.
  - intros j y Hj Hy. destruct j as [| j]; [| lia].
    injection Hy as <-. reflexivity.
Defined.

Lemma onehot_lookup (n k j : nat) :
  j < n → onehot n k !! j = Some (if decide (j = k) then of_Z 1 else zero).
Proof.
  intros Hj. unfold onehot. rewrite list_lookup_fmap.
  by rewrite lookup_seq_lt.
Qed.

Lemma onehot_no_nan (n k : nat) : no_nan (onehot n k).
Proof.
  apply Forall_forall. intros x Hx. unfold onehot in Hx.
  apply list_elem_of_fmap in Hx as (j & -> & _). by case_decide.
Qed.

(** X4: [np.argmax] decodes a one-hot row: on the row of length [n] with
    its single 1.0 at index [k] it returns [k]. *)
Theorem argmax_onehot (n k : nat) : k < n → argmax (onehot n k) = Ok k.
Proof.
  intros Hk.
  destruct (argmax_spec (onehot n k)) as (k' & m & -> & Hm & Hall & _).
  { unfold onehot. destruct n; [lia | done]. }
  { apply onehot_no_nan. }
  assert (Hk' : k' < n).
  { apply lookup_lt_Some in Hm. unfold onehot in Hm.
    by rewrite length_map, length_seq in Hm. }
  rewrite onehot_lookup in Hm by done. injection Hm as <-.
  rewrite Forall_forall in Hall.
  specialize (Hall (of_Z 1)). f_equal.
  case_decide as Heq; [done |]. exfalso.
  assert (Hin : of_Z 1 ∈ onehot n k).
  { apply list_elem_of_lookup. exists k.
    rewrite onehot_lookup by done. by rewrite decide_True. }
  specialize (Hall Hin). done.
Qed.

Lemma argmax_onehot_witness : argmax (onehot 10 7) = Ok 7.
Proof. apply (argmax_onehot 10 7). lia. Defined.

(** ** [relu] applied again *)

Lemma maximum_zero_idempotent (x : float) :
  maximum (maximum x zero) zero = maximum x zero.
Proof.
  destruct (maximum_zero_cases x) as [[Hn ->] | [_ Hp]].
  - unfold maximum. by rewrite Hn, orb_true_r.
  - unfold nonneg in Hp. unfold maximum at 1. by rewrite Hp.
Qed.

Lemma maximum0_idempotent (a : ndarray) :
  kernel.maximum0 (kernel.maximum0 a) = kernel.maximum0 a.
Proof.
  destruct a as [v | [r c d]]; unfold kernel.maximum0; simpl; f_equal.
  - rewrite map_map. apply map_ext. intros x. apply maximum_zero_idempotent.
  - unfold map_matrix. simpl. f_equal. rewrite map_map. apply map_ext.
    intros row. rewrite map_map. apply map_ext. intros x.
    apply maximum_zero_idempotent.
Qed.

(** X1: [relu] is idempotent on the store: a second [relu] of the same
    array returns the same reference and changes nothing at all. *)
Theorem relu_idempotent (x : loc) (a : ndarray) s :
  heap s !! x = Some a →
  ∃ s1, relu x s = (Ok x, s1) ∧ relu x s1 = (Ok x, s1).
Proof.
  intros Hx. eexists. split; [by apply relu_run |].
  assert (Hlt : x < length (heap s)) by (by eapply lookup_lt_Some).
  erewrite relu_run; last first.
  { cbn. by apply list_lookup_insert_eq. }
  unfold set_heap. cbn.
  by rewrite list_insert_insert_eq, maximum0_idempotent.
Qed.

Lemma relu_idempotent_witness :
  ∃ s1, relu 0 demo_state = (Ok 0, s1) ∧ relu 0 s1 = (Ok 0, s1).
Proof. apply (relu_idempotent 0 (Array2 demo_W) demo_state). reflexivity. Defined.

(** ** Running cell 11 *)

Lemma cell_bind_return {A B : Type} (m : Cell A) (f : A → Cell B) s a s1 :
  m s = (Return a, s1) → (m ≫= f) s = f a s1.
Proof. unfold mbind, Cell_bind. by intros ->. Qed.

Lemma cell_bind_throw {A B : Type} (m : Cell A) (f : A → Cell B) s e s1 :
  m s = (Throw e, s1) → (m ≫= f) s = (Throw e, s1).
Proof. unfold mbind, Cell_bind. by intros ->. Qed.

Lemma cell_bind_inv {A B : Type} (m : Cell A) (f : A → Cell B) s r s' :
  (m ≫= f) s = (r, s') →
  (∃ a s1, m s = (Return a, s1) ∧ f a s1 = (r, s'))
  ∨ (∃ e, m s = (Throw e, s') ∧ r = Throw e).
Proof.
  unfold mbind, Cell_bind. destruct (m s) as [[a | e] s1]; intros Heq.
  - left. eauto.
  - right. exists e. by inversion Heq.
Qed.

Lemma getitem_run (a : loc) (A : matrix) (i : nat) s :
  heap s !! a = Some (Array2 A) →
  getitem a i s =
    (match rows A !! i with
     | Some r => Return r
     | None => Throw IndexError
     end, s).
Proof.
  intros Ha. unfold getitem.
  erewrite cell_bind_return; last first.
  { unfold numpy. by rewrite (load2_ok _ _ _ Ha). }
  by destruct (rows A !! i).
Qed.

Lemma getitem_state (a : loc) (i : nat) s r s' :
  getitem a i s = (r, s') → s' = s.
Proof.
  unfold getitem, numpy, load2, load, raise, throw.
  unfold mbind, Cell_bind, M_bind, mret, Cell_ret, M_ret.
  intros Hrun. repeat case_match; simplify_eq; done.
Qed.

Lemma load2_state (l : loc) s r s' : load2 l s = (r, s') → s' = s.
Proof.
  unfold load2, load, raise, mbind, M_bind, mret, M_ret.
  intros Hrun. repeat case_match; simplify_eq; done.
Qed.

Lemma numpy_lift_run {A : Type} (r : result A) s :
  numpy (lift r) s =
    (match r with Ok a => Return a | Raise e => Throw (NumPy e) end, s).
Proof. unfold numpy, lift. by destruct r. Qed.

Lemma numpy_lift_state {A : Type} (r : result A) s r' s' :
  numpy (lift r) s = (r', s') → s' = s.
Proof. rewrite numpy_lift_run. by intros [= _ <-]. Qed.

(** With both arrays in the store the loop is [count_rows] on their rows
    and leaves the state as it is. *)
Lemma count_loop_run (lp ly : loc) (P Y : matrix) s :
  heap s !! lp = Some (Array2 P) → heap s !! ly = Some (Array2 Y) →
  ∀ indices c,
    count_loop lp ly indices c s = (count_rows (rows P) (rows Y) indices c, s).
Proof.
  intros HP HY. induction indices as [| i rest IH]; intros c; simpl; [done |].
  unfold mbind, Cell_bind at 1. rewrite (getitem_run _ _ _ _ HP).
  destruct (rows P !! i) as [p |]; [| done].
  unfold mbind, Cell_bind at 1. rewrite numpy_lift_run.
  destruct (argmax p) as [predicted | e]; [| done].
  unfold mbind, Cell_bind at 1. rewrite (getitem_run _ _ _ _ HY).
  destruct (rows Y !! i) as [y |]; [| done].
  unfold mbind, Cell_bind at 1. rewrite numpy_lift_run.
  destruct (argmax y) as [actual | e]; [| done].
  apply IH.
Qed.

(** The loop never touches the state, and counts at most one per index. *)
Lemma count_loop_bound (lp ly : loc) :
  ∀ indices c s r s',
    count_loop lp ly indices c s = (r, s') →
    s' = s ∧ ∀ c', r = Return c' → c ≤ c' ≤ c + length indices.
Proof.
  induction indices as [| i rest IH]; intros c s r s' Hrun; simpl in Hrun.
  { inversion Hrun; subst. split; [done |]. intros c' [= <-]. simpl. lia. }
  apply cell_bind_inv in Hrun as [(p & s1 & Hp & Hrun) | (e & Hp & ->)];
    [| by apply getitem_state in Hp].
  apply getitem_state in Hp as ->.
  apply cell_bind_inv in Hrun as [(a & s1 & Ha & Hrun) | (e & Ha & ->)];
    [| by apply numpy_lift_state in Ha].
  apply numpy_lift_state in Ha as ->.
  apply cell_bind_inv in Hrun as [(y & s1 & Hy & Hrun) | (e & Hy & ->)];
    [| by apply getitem_state in Hy].
  apply getitem_state in Hy as ->.
  apply cell_bind_inv in Hrun as [(a' & s1 & Ha' & Hrun) | (e & Ha' & ->)];
    [| by apply numpy_lift_state in Ha'].
  apply numpy_lift_state in Ha' as ->.
  apply IH in Hrun as [-> Hc]. split; [done |].
  intros c' Hr. specialize (Hc c' Hr). simpl. case_decide; lia.
Qed.

Lemma argmax_nonempty (v : list float) : v ≠ [] → ∃ k, argmax v = Ok k.
Proof.
  destruct v as [| x ip]; [done |]. intros _. simpl.
  destruct (isnan x); eauto.
Qed.

Lemma wf_rows_nonempty (m : matrix) (r : list float) :
  wf_matrix m → 0 < ncols m → r ∈ rows m → r ≠ [].
Proof.
  intros [_ Hrows] Hc Hr. rewrite Forall_forall in Hrows.
  specialize (Hrows r Hr). intros ->. simpl in Hrows. lia.
Qed.

(** On rows that all have entries, and indices within both arrays, the
    loop counts the rows whose two [argmax] agree. *)
Lemma count_rows_seq (P Y : list (list float)) :
  (∀ r, r ∈ P → r ≠ []) → (∀ r, r ∈ Y → r ≠ []) →
  ∀ n i0 c,
    i0 + n ≤ length P → i0 + n ≤ length Y →
    count_rows P Y (seq i0 n) c =
      Return (c + length (filter (λ vw, agree vw.1 vw.2 = true)
                            (zip (take n (drop i0 P)) (take n (drop i0 Y))))).
Proof.
  intros HP HY. induction n as [| n IH]; intros i0 c HlP HlY.
  { simpl. by rewrite Nat.add_0_r. }
  destruct (lookup_lt_is_Some_2 P i0 ltac:(lia)) as [p Hp].
  destruct (lookup_lt_is_Some_2 Y i0 ltac:(lia)) as [y Hy].
  destruct (argmax_nonempty p) as [a Ha].
  { apply HP. by eapply list_elem_of_lookup_2. }
  destruct (argmax_nonempty y) as [a' Ha'].
  { apply HY. by eapply list_elem_of_lookup_2. }
  cbn [seq count_rows]. rewrite Hp, Ha, Hy, Ha'. rewrite IH by lia.
  rewrite (drop_S P p i0 Hp), (drop_S Y y i0 Hy).
  cbn [take zip zip_with]. f_equal.
  destruct (decide (a = a')) as [Heq | Hne].
  - rewrite filter_cons_True; [simpl; lia |].
    unfold agree. simpl. rewrite Ha, Ha'. by apply bool_decide_eq_true_2.
  - rewrite filter_cons_False; [lia |].
    unfold agree. simpl. rewrite Ha, Ha'.
    by rewrite bool_decide_eq_false_2.
Qed.

Lemma count_rows_ext (P Y Y' : list (list float)) :
  ∀ indices c,
    (∀ i, i ∈ indices → Y !! i = Y' !! i) →
    count_rows P Y indices c = count_rows P Y' indices c.
Proof.
  induction indices as [| i rest IH]; intros c Hsame; [done |].
  cbn [count_rows]. rewrite <- (Hsame i) by apply list_elem_of_here.
  destruct (P !! i) as [p |]; [| done].
  destruct (argmax p) as [a | e]; [| done].
  destruct (Y !! i) as [y |]; [| done].
  destruct (argmax y) as [a' | e]; [| done].
  apply IH. intros j Hj. apply Hsame. by apply list_elem_of_further.
Qed.

(** The labels run out before the predictions do: [IndexError]. *)
Lemma count_rows_short (P Y : list (list float)) :
  (∀ r, r ∈ P → r ≠ []) → (∀ r, r ∈ Y → r ≠ []) →
  ∀ n i0 c,
    i0 + n ≤ length P → i0 ≤ length Y → length Y < i0 + n →
    count_rows P Y (seq i0 n) c = Throw IndexError.
Proof.
  intros HP HY. induction n as [| n IH]; intros i0 c HlP Hi0 HlY; [lia |].
  cbn [seq count_rows].
  destruct (lookup_lt_is_Some_2 P i0 ltac:(lia)) as [p Hp]. rewrite Hp.
  destruct (argmax_nonempty p) as [a Ha].
  { apply HP. by eapply list_elem_of_lookup_2. }
  rewrite Ha.
  destruct (decide (i0 = length Y)) as [-> | Hne].
  - by rewrite (lookup_ge_None_2 Y (length Y)) by lia.
  - destruct (lookup_lt_is_Some_2 Y i0 ltac:(lia)) as [y Hy]. rewrite Hy.
    destruct (argmax_nonempty y) as [a' Ha'].
    { apply HY. by eapply list_elem_of_lookup_2. }
    rewrite Ha'. apply IH; lia.
Qed.

(** In a fitted model cell 11 is the prediction followed by the loop and
    the division, run in the state the prediction leaves. *)
Lemma cell11_after_predict
    (lx lw ly : loc) (X W Wout : matrix) (b : list float) s :
  model s W b → heap s !! lx = Some (Array2 X) → ncols X = nrows W →
  output_weights s = Some lw → heap s !! lw = Some (Array2 Wout) →
  ncols W = nrows Wout →
  let s' := set_heap (((heap s ++ [Array2 (kernel.matmul X W)])
                         ++ [Array2 (activation X W b)])
                        ++ [Array2 (kernel.matmul (activation X W b) Wout)]) s in
  heap s' !! S (S (length (heap s)))
    = Some (Array2 (kernel.matmul (activation X W b) Wout))
  ∧ extends s s'
  ∧ cell11 lx ly s =
      (c ← count_loop (S (S (length (heap s)))) ly (seq 0 (nrows X)) 0;
       accuracy ← true_divide c (nrows X);
       mret (Score c (nrows X) accuracy)) s'.
Proof.
  intros Hm HX Hcols Hw HWout Hh s'.
  assert (Hext : extends s s').
  { unfold s'. rewrite <- !app_assoc. apply extends_set_heap. }
  split; [| split; [done |]].
  { unfold s'. cbn. set (hp := (heap s ++ _) ++ _).
    replace (S (S (length (heap s)))) with (length hp)
      by (unfold hp; rewrite !length_app; simpl; lia).
    apply lookup_last. }
  unfold cell11.
  erewrite cell_bind_return; last first.
  { unfold numpy.
    rewrite (predict_run _ _ _ _ _ _ _ Hm HX Hcols Hw HWout).
    by rewrite decide_True. }
  fold s'. erewrite cell_bind_return; last first.
  { unfold numpy. by rewrite (load2_ok lx X s' (extends_lookup _ _ _ _ Hext HX)). }
  done.
Qed.

Lemma cell11_run
    (lx lw ly : loc) (X W Wout Y : matrix) (b : list float) s :
  model s W b → heap s !! lx = Some (Array2 X) → ncols X = nrows W →
  output_weights s = Some lw → heap s !! lw = Some (Array2 Wout) →
  ncols W = nrows Wout → heap s !! ly = Some (Array2 Y) →
  ∃ s',
    extends s s'
    ∧ cell11 lx ly s =
        (match count_rows (rows (kernel.matmul (activation X W b) Wout))
                 (rows Y) (seq 0 (nrows X)) 0 with
         | Return c =>
             if decide (nrows X = 0) then Throw ZeroDivisionError
             else Return (Score c (nrows X)
                            (SFdiv prec emax (of_Z (Z.of_nat c))
                               (of_Z (Z.of_nat (nrows X)))))
         | Throw e => Throw e
         end, s').
Proof.
  intros Hm HX Hcols Hw HWout Hh HY.
  destruct (cell11_after_predict lx lw ly X W Wout b s Hm HX Hcols Hw HWout Hh)
    as (HR & Hext & ->).
  eexists. split; [exact Hext |].
  unfold mbind at 1, Cell_bind at 1.
  rewrite (count_loop_run _ _ _ _ _ HR (extends_lookup _ _ _ _ Hext HY)).
  destruct (count_rows _ _ _ _) as [c | e]; [| done].
  unfold true_divide, throw, mbind, Cell_bind, mret, Cell_ret.
  by case_decide.
Qed.

Lemma agreements_le (P Y : matrix) (n : nat) : agreements P Y n ≤ n.
Proof.
  unfold agreements. etrans; [apply length_filter |].
  rewrite length_zip, !length_take. lia.
Qed.

(** X5: in a fitted model, on test inputs [X] with at least one row and
    labels [Y] with at least as many rows as [X], cell 11 returns; [total]
    is the number of rows of [X], [correct] the number of rows among the
    first [total] on which the [argmax] of the prediction and that of the
    label agree, and [accuracy] their binary64 quotient. *)
Theorem cell11_counts_agreements
    (lx lw ly : loc) (X W Wout Y : matrix) (b : list float) s :
  model s W b → output_weights s = Some lw →
  heap s !! lw = Some (Array2 Wout) → ncols W = nrows Wout →
  heap s !! lx = Some (Array2 X) → wf_matrix X → ncols X = nrows W →
  heap s !! ly = Some (Array2 Y) → wf_matrix Y →
  0 < nrows X → nrows X ≤ nrows Y → 0 < ncols Wout → 0 < ncols Y →
  ∃ s' c,
    cell11 lx ly s =
      (Return (Score c (nrows X)
                 (SFdiv prec emax (of_Z (Z.of_nat c))
                    (of_Z (Z.of_nat (nrows X))))), s')
    ∧ c = agreements (kernel.matmul (activation X W b) Wout) Y (nrows X)
    ∧ c ≤ nrows X
    ∧ extends s s'.
Proof.
  intros Hm Hw HWout Hh HX HwfX Hcols HY HwfY Hn HnY HcW HcY.
  destruct (cell11_run lx lw ly X W Wout Y b s) as (s' & Hext & Hrun);
    try done.
  assert (Hlen : length b = ncols W) by (by destruct Hm as (_ & _ & _ & ?)).
  destruct (wf_activation X W b HwfX Hlen) as (HwfH & HrH & _).
  destruct (wf_matmul (activation X W b) Wout HwfH) as (HwfR & HrR & HcR).
  set (R := kernel.matmul (activation X W b) Wout) in *.
  rewrite (count_rows_seq (rows R) (rows Y)) in Hrun.
  - rewrite decide_False in Hrun by lia.
    rewrite Nat.add_0_l, !drop_0 in Hrun.
    eexists _, _. split; [exact Hrun |].
    split; [reflexivity |]. split; [| done].
    apply (agreements_le R Y (nrows X)).
  - intros r Hr. apply (wf_rows_nonempty R); [done | lia | done].
  - intros r Hr. by apply (wf_rows_nonempty Y).
  - destruct HwfR as [-> _]. lia.
  - destruct HwfY as [-> _]. lia.
Qed.

Lemma cell11_counts_agreements_witness :
  ∃ s' c,
    cell11 8 5 eval_state =
      (Return (Score c (nrows two_inputs)
                 (SFdiv prec emax (of_Z (Z.of_nat c))
                    (of_Z (Z.of_nat (nrows two_inputs))))), s')
    ∧ c = agreements
            (kernel.matmul (activation two_inputs unit_matrix [zero]) onehot_a)
            two_rows (nrows two_inputs)
    ∧ c ≤ nrows two_inputs
    ∧ extends eval_state s'.
Proof.
  apply (cell11_counts_agreements 8 6 5 two_inputs unit_matrix onehot_a
           two_rows [zero] eval_state).
  - repeat split; repeat constructor.
  - reflexivity.
  - reflexivity.
  - reflexivity.
  - reflexivity.
  - repeat split; repeat constructor.
  - reflexivity.
  - reflexivity.
  - repeat split; repeat constructor.
  - simpl. lia.
  - simpl. lia.
  - simpl. lia.
  - simpl. lia.
Defined.

(** Two test rows, both predicted as the first class, against the labels
    first class and second class: one of two is correct. *)
Example cell11_demo :
  (cell11 8 5 eval_state).1 = Return (Score 1 2 (SFdiv prec emax f1 f2)).
Proof. vm_compute. reflexivity. Qed.

(** X6: in a fitted model, on test inputs with no row, cell 11 raises
    [ZeroDivisionError]: the prediction succeeds, the loop does not run,
    and [correct/total] divides by zero; the labels are never read. *)
Theorem cell11_no_rows
    (lx lw ly : loc) (X W Wout : matrix) (b : list float) s :
  model s W b → output_weights s = Some lw →
  heap s !! lw = Some (Array2 Wout) → ncols W = nrows Wout →
  heap s !! lx = Some (Array2 X) → ncols X = nrows W → nrows X = 0 →
  ∃ s', cell11 lx ly s = (Throw ZeroDivisionError, s') ∧ extends s s'.
Proof.
  intros Hm Hw HWout Hh HX Hcols Hn.
  destruct (cell11_after_predict lx lw ly X W Wout b s Hm HX Hcols Hw HWout Hh)
    as (_ & Hext & ->).
  eexists. split; [| exact Hext]. by rewrite Hn.
Qed.

Lemma cell11_no_rows_witness :
  ∃ s', cell11 7 99 eval_state = (Throw ZeroDivisionError, s')
        ∧ extends eval_state s'.
Proof.
  apply (cell11_no_rows 7 6 99 no_rows unit_matrix onehot_a [zero] eval_state).
  - repeat split; repeat constructor.
  - reflexivity.
  - reflexivity.
  - reflexivity.
  - reflexivity.
  - reflexivity.
  - reflexivity.
Defined.

(** X7: in a fitted model, when the labels have fewer rows than the test
    inputs, cell 11 raises [IndexError] (at the first row that has no
    label). *)
Theorem cell11_labels_too_short
    (lx lw ly : loc) (X W Wout Y : matrix) (b : list float) s :
  model s W b → output_weights s = Some lw →
  heap s !! lw = Some (Array2 Wout) → ncols W = nrows Wout →
  heap s !! lx = Some (Array2 X) → wf_matrix X → ncols X = nrows W →
  heap s !! ly = Some (Array2 Y) → wf_matrix Y →
  nrows Y < nrows X → 0 < ncols Wout → 0 < ncols Y →
  ∃ s', cell11 lx ly s = (Throw IndexError, s') ∧ extends s s'.
Proof.
  intros Hm Hw HWout Hh HX HwfX Hcols HY HwfY HnY HcW HcY.
  destruct (cell11_run lx lw ly X W Wout Y b s) as (s' & Hext & Hrun);
    try done.
  assert (Hlen : length b = ncols W) by (by destruct Hm as (_ & _ & _ & ?)).
  destruct (wf_activation X W b HwfX Hlen) as (HwfH & HrH & _).
  destruct (wf_matmul (activation X W b) Wout HwfH) as (HwfR & HrR & HcR).
  set (R := kernel.matmul (activation X W b) Wout) in *.
  rewrite (count_rows_short (rows R) (rows Y)) in Hrun.
  - by exists s'.
  - intros r Hr. apply (wf_rows_nonempty R); [done | lia | done].
  - intros r Hr. by apply (wf_rows_nonempty Y).
  - destruct HwfR as [-> _]. lia.
  - lia.
  - destruct HwfY as [-> _]. lia.
Qed.

Lemma cell11_labels_too_short_witness :
  ∃ s', cell11 8 3 eval_state = (Throw IndexError, s')
        ∧ extends eval_state s'.
Proof.
  apply (cell11_labels_too_short 8 6 3 two_inputs unit_matrix onehot_a
           onehot_a [zero] eval_state).
  - repeat split; repeat constructor.
  - reflexivity.
  - reflexivity.
  - reflexivity.
  - reflexivity.
  - repeat split; repeat constructor.
  - reflexivity.
  - reflexivity.
  - repeat split; repeat constructor.
  - simpl. lia.
  - simpl. lia.
  - simpl. lia.
Defined.

(** X8: cell 11 reads only as many label rows as there are test inputs:
    two label arrays that agree on their first [total] rows give the same
    outcome, whatever rows follow. *)
Theorem cell11_ignores_further_labels
    (lx lw ly ly' : loc) (X W Wout Y Y' : matrix) (b : list float) s :
  model s W b → output_weights s = Some lw →
  heap s !! lw = Some (Array2 Wout) → ncols W = nrows Wout →
  heap s !! lx = Some (Array2 X) → ncols X = nrows W →
  heap s !! ly = Some (Array2 Y) → heap s !! ly' = Some (Array2 Y') →
  take (nrows X) (rows Y) = take (nrows X) (rows Y') →
  cell11 lx ly s = cell11 lx ly' s.
Proof.
  intros Hm Hw HWout Hh HX Hcols HY HY' Htake.
  destruct (cell11_after_predict lx lw ly X W Wout b s Hm HX Hcols Hw HWout Hh)
    as (HR & Hext & ->).
  destruct (cell11_after_predict lx lw ly' X W Wout b s Hm HX Hcols Hw HWout Hh)
    as (_ & _ & ->).
  unfold mbind at 1 3, Cell_bind at 1 3.
  rewrite (count_loop_run _ _ _ _ _ HR (extends_lookup _ _ _ _ Hext HY)).
  rewrite (count_loop_run _ _ _ _ _ HR (extends_lookup _ _ _ _ Hext HY')).
  rewrite (count_rows_ext _ (rows Y) (rows Y')); [done |].
  intros i Hi. apply elem_of_seq in Hi.
  rewrite <- (lookup_take_lt (rows Y) (nrows X) i) by lia.
  rewrite <- (lookup_take_lt (rows Y') (nrows X) i) by lia.
  by rewrite Htake.
Qed.

Lemma cell11_ignores_further_labels_witness :
  cell11 2 3 eval_state = cell11 2 5 eval_state.
Proof.
  apply (cell11_ignores_further_labels 2 6 3 5 unit_matrix unit_matrix
           onehot_a onehot_a two_rows [zero] eval_state).
  - repeat split; repeat constructor.
  - reflexivity.
  - reflexivity.
  - reflexivity.
  - reflexivity.
  - reflexivity.
  - reflexivity.
  - reflexivity.
  - reflexivity.
Defined.

Lemma true_divide_inv (c n : nat) s r s' :
  true_divide c n s = (r, s') →
  s' = s ∧ ∀ a, r = Return a → 0 < n.
Proof.
  unfold true_divide, throw, mret, Cell_ret. case_decide; intros [= <- <-].
  - done.
  - split; [done |]. intros _ _. lia.
Qed.

(** X9: whatever state and arguments cell 11 is run on, a score it returns
    has [0 < total] and [correct ≤ total]. *)
Theorem cell11_score_bounds (lx ly : loc) (sc : score) s s' :
  cell11 lx ly s = (Return sc, s') →
  0 < total sc ∧ correct sc ≤ total sc.
Proof.
  unfold cell11. intros Hrun.
  apply cell_bind_inv in Hrun as [(p & s1 & _ & Hrun) | (e & _ & [=])].
  apply cell_bind_inv in Hrun as [(X & s2 & _ & Hrun) | (e & _ & [=])].
  apply cell_bind_inv in Hrun as [(c & s3 & Hloop & Hrun) | (e & _ & [=])].
  apply cell_bind_inv in Hrun as [(a & s4 & Hdiv & Hrun) | (e & _ & [=])].
  injection Hrun as <- _. simpl.
  apply count_loop_bound in Hloop as [_ Hc].
  specialize (Hc c eq_refl). rewrite length_seq in Hc.
  apply true_divide_inv in Hdiv as [_ Hn].
  split; [by eapply Hn | lia].
Qed.

Lemma cell11_score_bounds_witness :
  0 < total (Score 1 2 (SFdiv prec emax f1 f2))
  ∧ correct (Score 1 2 (SFdiv prec emax f1 f2))
    ≤ total (Score 1 2 (SFdiv prec emax f1 f2)).
Proof.
  apply (cell11_score_bounds 8 5 (Score 1 2 (SFdiv prec emax f1 f2))
           eval_state (cell11 8 5 eval_state).2).
  vm_compute. reflexivity.
Defined.

(** X10: whatever cell 11 returns or raises, it leaves every module-level
    name and every existing array object as it was; in a constructed model
    the weights and the biases keep their contents. *)
Theorem cell11_keeps_state
    (lx ly : loc) (W : matrix) (b : list float) s r s' :
  model s W b → cell11 lx ly s = (r, s') →
  model s' W b ∧ extends s s'.
Proof.
  intros Hm Hrun.
  assert (Hext : extends s s'); [| split; [by eapply model_extends | done]].
  unfold cell11 in Hrun.
  assert (Hnumpy : ∀ lx s r s', numpy (predict lx) s = (r, s') → extends s s').
  { intros l t r0 t'. unfold numpy.
    destruct (predict l t) as [r1 t1] eqn:Hp. apply predict_extends in Hp.
    by destruct r1; intros [= _ <-]. }
  apply cell_bind_inv in Hrun as [(p & s1 & Hp & Hrun) | (e & Hp & _)];
    [| by eapply Hnumpy].
  apply Hnumpy in Hp.
  assert (s' = s1) as ->; [| done].
  apply cell_bind_inv in Hrun as [(X & s2 & HX & Hrun) | (e & HX & _)].
  - assert (s2 = s1) as ->.
    { unfold numpy in HX. destruct (load2 lx s1) as [r1 t1] eqn:Hl.
      apply load2_state in Hl as ->. by destruct r1; injection HX as _ <-. }
    apply cell_bind_inv in Hrun as [(c & s3 & Hloop & Hrun) | (e & Hloop & _)];
      [| by apply count_loop_bound in Hloop as [-> _]].
    apply count_loop_bound in Hloop as [-> _].
    apply cell_bind_inv in Hrun as [(a & s4 & Hdiv & Hrun) | (e & Hdiv & _)];
      [| by apply true_divide_inv in Hdiv as [-> _]].
    apply true_divide_inv in Hdiv as [-> _]. by injection Hrun as _ <-.
  - unfold numpy in HX. destruct (load2 lx s1) as [r1 t1] eqn:Hl.
    apply load2_state in Hl as ->. by destruct r1; injection HX as _ <-.
Qed.

Lemma cell11_keeps_state_witness :
  model (cell11 8 3 eval_state).2 unit_matrix [zero]
  ∧ extends eval_state (cell11 8 3 eval_state).2.
Proof.
  apply (cell11_keeps_state 8 3 unit_matrix [zero] eval_state
           (cell11 8 3 eval_state).1).
  - repeat split; repeat constructor.
  - reflexivity.
Defined.

(** ** Cells 5 to 7, and the cells in sequence *)

Lemma wf_normal2 (variate : nat → float) (first r c : nat) :
  wf_matrix (normal2 variate first r c).
Proof.
  split; simpl.
  - by rewrite length_map, length_seq.
  - apply Forall_forall. intros row Hrow.
    apply list_elem_of_fmap in Hrow as (i & -> & _).
    by rewrite length_map, length_seq.
Qed.

Lemma construct_run
    (variate : nat → float) (hp : list ndarray) (lX : loc) (X : matrix)
    (hidden : nat) :
  hp !! lX = Some (Array2 X) →
  let W := normal2 variate 0 (ncols X) hidden in
  let b := normal1 variate (ncols X * hidden) hidden in
  let s := State (hp ++ [Array2 W; Array1 b]) (length hp) (S (length hp)) None in
  construct variate hp lX hidden = Ok (s, ncols X * hidden + hidden)
  ∧ model s W b
  ∧ heap s !! lX = Some (Array2 X).
Proof.
  intros HX W b s. unfold construct. rewrite HX.
  split; [done |]. split; [| by apply lookup_grown].
  split; [| split; [| split]].
  - unfold s. cbn. by rewrite list_lookup_middle.
  - unfold s. cbn.
    replace (hp ++ [Array2 W; Array1 b])
      with ((hp ++ [Array2 W]) ++ [Array1 b]) by (by rewrite <- app_assoc).
    replace (S (length hp)) with (length (hp ++ [Array2 W]))
      by (rewrite length_app; simpl; lia).
    by rewrite list_lookup_middle.
  - apply wf_normal2.
  - unfold b, normal1. by rewrite length_map, length_seq.
Qed.

(** X11: cells 5 and 7 leave a constructed model: the weights have the
    shape [(X_train.shape[1], hidden_size)] and the biases the length
    [hidden_size], [output_weights] is unbound, the arrays that existed
    are untouched, and the generator has advanced by
    [input_size * hidden_size + hidden_size] variates.  In that model the
    projection of [X_train] itself never fails: it returns an array of
    shape [(n, hidden_size)]. *)
Theorem construct_fits_training_inputs
    (variate : nat → float) (hp : list ndarray) (lX : loc) (X : matrix)
    (hidden : nat) :
  hp !! lX = Some (Array2 X) → wf_matrix X →
  ∃ s W b lh s' H,
    construct variate hp lX hidden = Ok (s, ncols X * hidden + hidden)
    ∧ model s W b
    ∧ shape (Array2 W) = [ncols X; hidden] ∧ length b = hidden
    ∧ output_weights s = None
    ∧ (∀ l a, hp !! l = Some a → heap s !! l = Some a)
    ∧ hidden_nodes lX s = (Ok lh, s')
    ∧ heap s' !! lh = Some (Array2 H)
    ∧ wf_matrix H
    ∧ shape (Array2 H) = [nrows X; hidden].
Proof.
  intros HX HwfX.
  destruct (construct_run variate hp lX X hidden HX) as (Hc & Hm & HXs).
  set (W := normal2 variate 0 (ncols X) hidden) in *.
  set (b := normal1 variate (ncols X * hidden) hidden) in *.
  assert (Hlen : length b = hidden).
  { unfold b, normal1. by rewrite length_map, length_seq. }
  destruct (wf_activation X W b HwfX Hlen) as (HwfH & HrH & HcH).
  eexists _, W, b, _, _, (activation X W b).
  split; [exact Hc |]. split; [exact Hm |]. split; [done |].
  split; [done |]. split; [done |].
  split; [intros l a Hl; by apply lookup_grown |].
  split; [by apply (hidden_nodes_run lX X W b) |].
  split; [apply lookup_last2 |]. split; [done |].
  reflexivity.
Qed.

Lemma construct_fits_training_inputs_witness :
  ∃ s W b lh s' H,
    construct unit_variate raw_store 2 3
      = Ok (s, ncols two_inputs * 3 + 3)
    ∧ model s W b
    ∧ shape (Array2 W) = [ncols two_inputs; 3] ∧ length b = 3
    ∧ output_weights s = None
    ∧ (∀ l a, raw_store !! l = Some a → heap s !! l = Some a)
    ∧ hidden_nodes 2 s = (Ok lh, s')
    ∧ heap s' !! lh = Some (Array2 H)
    ∧ wf_matrix H
    ∧ shape (Array2 H) = [nrows two_inputs; 3].
Proof.
  apply (construct_fits_training_inputs unit_variate raw_store 2 two_inputs 3).
  - reflexivity.
  - repeat split; repeat constructor.
Defined.

(** Cell 9, when it returns, leaves a fitted model: the weights and biases
    are in place, every earlier array is untouched, and [output_weights]
    names [np.dot(P, Y)]. *)
Lemma fit_fitted
    (pinv2_val : matrix → result matrix) (lX lY : loc) (X Y P W : matrix)
    (b : list float) s :
  model s W b →
  heap s !! lX = Some (Array2 X) → heap s !! lY = Some (Array2 Y) →
  ncols X = nrows W → pinv2_val (activation X W b) = Ok P →
  ncols P = nrows Y →
  ∃ s1 lw,
    fit pinv2_val lX lY s = (Ok tt, s1)
    ∧ model s1 W b
    ∧ (∀ l a, heap s !! l = Some a → heap s1 !! l = Some a)
    ∧ output_weights s1 = Some lw
    ∧ heap s1 !! lw = Some (Array2 (kernel.matmul P Y)).
Proof.
  intros Hm HX HY Hcols HP Hfit.
  assert (Hrun := fit_run pinv2_val lX lY X Y P W b s Hm HX HY Hcols HP Hfit).
  assert (Hframe := fit_frame _ _ _ _ _ _ Hrun).
  destruct Hframe as (l & s' & Hext & Heq).
  eexists _, _. split; [exact Hrun |]. rewrite Heq.
  split; [apply model_set_output_weights; by eapply model_extends |].
  split; [intros l0 a Hl; by apply (extends_lookup _ _ _ _ Hext) |].
  rewrite <- Heq. split; [reflexivity |]. cbn.
  set (h3 := ((_ ++ _) ++ _) ++ [Array2 P]).
  replace (S (S (S (length (heap s))))) with (length h3)
    by (unfold h3; rewrite !length_app; simpl; lia).
  apply lookup_last.
Qed.

(** X12: the cells in sequence.  With training inputs [X], training labels
    [Y] with as many rows as [X], and test inputs [T] with as many columns
    as [X], cells 5 to 7 followed by cell 9 followed by [predict] on [T]
    never raise once [pinv2] has returned [P] for the hidden activations of
    [X]; the prediction holds [relu(T·W + b)·(P·Y)] and has shape
    [(T.shape[0], Y.shape[1])]. *)
Theorem cells_in_sequence
    (variate : nat → float) (pinv2_val : matrix → result matrix)
    (hp : list ndarray) (lX lY lT : loc) (X Y T P : matrix) (hidden : nat) :
  pinv2_contract pinv2_val →
  hp !! lX = Some (Array2 X) → wf_matrix X →
  hp !! lY = Some (Array2 Y) → nrows Y = nrows X →
  hp !! lT = Some (Array2 T) → wf_matrix T → ncols T = ncols X →
  let W := normal2 variate 0 (ncols X) hidden in
  let b := normal1 variate (ncols X * hidden) hidden in
  pinv2_val (activation X W b) = Ok P →
  ∃ s0 used s1 l s2,
    construct variate hp lX hidden = Ok (s0, used)
    ∧ fit pinv2_val lX lY s0 = (Ok tt, s1)
    ∧ predict lT s1 = (Ok l, s2)
    ∧ heap s2 !! l
      = Some (Array2 (kernel.matmul (activation T W b) (kernel.matmul P Y)))
    ∧ wf_matrix (kernel.matmul (activation T W b) (kernel.matmul P Y))
    ∧ shape (Array2 (kernel.matmul (activation T W b) (kernel.matmul P Y)))
      = [nrows T; ncols Y].
Proof.
  intros Hc HX HwfX HY HrY HT HwfT HcT W b HP.
  destruct (construct_run variate hp lX X hidden HX) as (Hcon & Hm & HXs).
  fold W b in Hcon, Hm, HXs.
  set (s0 := State (hp ++ [Array2 W; Array1 b]) (length hp) (S (length hp)) None)
    in *.
  assert (Hlen : length b = ncols W).
  { unfold b, normal1. by rewrite length_map, length_seq. }
  destruct (wf_activation X W b HwfX Hlen) as (HwfH & HrH & HcH).
  destruct (Hc _ _ HwfH HP) as (HwfP & HrP & HcP).
  assert (HYs : heap s0 !! lY = Some (Array2 Y)) by (by apply lookup_grown).
  assert (HTs : heap s0 !! lT = Some (Array2 T)) by (by apply lookup_grown).
  assert (HPY : ncols P = nrows Y) by (by rewrite HcP, HrH).
  destruct (fit_fitted pinv2_val lX lY X Y P W b s0 Hm HXs HYs eq_refl HP HPY)
    as (s1 & lw & Hfit & Hm1 & Hkeep & How1 & Hw1).
  assert (HT1 := Hkeep _ _ HTs).
  assert (Hpred := predict_run lT lw T W (kernel.matmul P Y) b s1 Hm1 HT1
                     ltac:(done) How1 Hw1).
  rewrite decide_True in Hpred
    by (change (nrows (kernel.matmul P Y)) with (nrows P); by rewrite HrP, HcH).
  destruct (wf_activation T W b HwfT Hlen) as (HwfA & HrA & HcA).
  destruct (wf_matmul (activation T W b) (kernel.matmul P Y) HwfA)
    as (HwfR & HrR & HcR).
  eexists s0, _, s1, _, _.
  split; [exact Hcon |]. split; [exact Hfit |]. split; [exact Hpred |].
  split.
  { cbn [heap set_heap]. set (h2 := (_ ++ _) ++ [Array2 (activation T W b)]).
    replace (S (S (length (heap s1)))) with (length h2)
      by (unfold h2; rewrite !length_app; simpl; lia).
    apply lookup_last. }
  split; [done |]. cbn [shape]. by rewrite HrR, HcR, HrA.
Qed.

Lemma cells_in_sequence_witness :
  ∃ s0 used s1 l s2,
    construct unit_variate raw_store 0 1 = Ok (s0, used)
    ∧ fit pinv2_unit 0 1 s0 = (Ok tt, s1)
    ∧ predict 2 s1 = (Ok l, s2)
    ∧ heap s2 !! l
      = Some (Array2
                (kernel.matmul
                   (activation two_inputs
                      (normal2 unit_variate 0 (ncols unit_matrix) 1)
                      (normal1 unit_variate (ncols unit_matrix * 1) 1))
                   (kernel.matmul unit_matrix onehot_a)))
    ∧ wf_matrix
        (kernel.matmul
           (activation two_inputs
              (normal2 unit_variate 0 (ncols unit_matrix) 1)
              (normal1 unit_variate (ncols unit_matrix * 1) 1))
           (kernel.matmul unit_matrix onehot_a))
    ∧ shape
        (Array2
           (kernel.matmul
              (activation two_inputs
                 (normal2 unit_variate 0 (ncols unit_matrix) 1)
                 (normal1 unit_variate (ncols unit_matrix * 1) 1))
              (kernel.matmul unit_matrix onehot_a)))
      = [nrows two_inputs; ncols onehot_a].
Proof.
  apply (cells_in_sequence unit_variate pinv2_unit raw_store 0 1 2
           unit_matrix onehot_a two_inputs unit_matrix 1).
  - exact pinv2_unit_contract.
  - reflexivity.
  - repeat split; repeat constructor.
  - reflexivity.
  - reflexivity.
  - reflexivity.
  - repeat split; repeat constructor.
  - reflexivity.
  - reflexivity.
Defined.

(** The three cells on the sample store: both test rows are scored for
    the first class only. *)
Example cells_in_sequence_demo :
  ∃ s0 used s1,
    construct unit_variate raw_store 0 1 = Ok (s0, used)
    ∧ (fit pinv2_unit 0 1 s0).2 = s1
    ∧ returned (predict 2) s1
      = Ok (Array2 (Matrix 2 2 [[f1; zero]; [f2; zero]])).
Proof. eexists _, _, _. split; [reflexivity |]. split; [reflexivity |]. vm_compute. reflexivity. Qed.

(** ** The columns of the table *)

Lemma take_drop_rows (l : list (list float)) :
  zip_with app (map (take 1) l) (map (drop 1) l) = l.
Proof.
  induction l as [| r l IH]; [done |]. cbn [map zip_with].
  by rewrite take_drop, IH.
Qed.

(** X13: the label column and the feature columns of cell 3 partition the
    table: both slices keep every row, the features are the table without
    its first column, the labels are that first column alone, and putting
    each label row in front of its feature row gives the table back. *)
Theorem table_columns_partition (values : matrix) :
  wf_matrix values →
  wf_matrix (table.features values)
  ∧ wf_matrix (table.labels values)
  ∧ nrows (table.features values) = nrows values
  ∧ nrows (table.labels values) = nrows values
  ∧ ncols (table.labels values) + ncols (table.features values)
    = ncols values
  ∧ (0 < ncols values → ncols (table.labels values) = 1)
  ∧ zip_with app (rows (table.labels values)) (rows (table.features values))
    = rows values.
Proof.
  intros [Hlen Hrows]. rewrite Forall_forall in Hrows.
  split; [| split; [| split; [| split; [| split; [| split]]]]].
  - split; cbn [table.features rows nrows ncols]; [by rewrite length_map |].
    apply Forall_forall. intros r Hr.
    apply list_elem_of_fmap in Hr as (r0 & -> & Hr0).
    by rewrite length_drop, (Hrows r0 Hr0).
  - split; cbn [table.labels rows nrows ncols]; [by rewrite length_map |].
    apply Forall_forall. intros r Hr.
    apply list_elem_of_fmap in Hr as (r0 & -> & Hr0).
    by rewrite length_take, (Hrows r0 Hr0).
  - done.
  - done.
  - cbn [table.features table.labels ncols]. lia.
  - cbn [table.labels ncols]. lia.
  - apply take_drop_rows.
Qed.

Lemma table_columns_partition_witness :
  wf_matrix (table.features demo_wide)
  ∧ wf_matrix (table.labels demo_wide)
  ∧ nrows (table.features demo_wide) = nrows demo_wide
  ∧ nrows (table.labels demo_wide) = nrows demo_wide
  ∧ ncols (table.labels demo_wide) + ncols (table.features demo_wide)
    = ncols demo_wide
  ∧ (0 < ncols demo_wide → ncols (table.labels demo_wide) = 1)
  ∧ zip_with app (rows (table.labels demo_wide))
      (rows (table.features demo_wide))
    = rows demo_wide.
Proof.
  apply (table_columns_partition demo_wide).
  repeat split; repeat constructor.
Defined.

(** ** A fit that fails *)

(** X14: in a constructed model that was never fitted, cell 9 with labels
    whose row count differs from that of the training inputs raises
    [ValueError] once [pinv2] has returned, and leaves [output_weights]
    unbound: a [predict] on inputs with [input_size] columns afterwards
    still raises [NameError]. *)
Theorem failed_fit_leaves_unfitted
    (pinv2_val : matrix → result matrix) (lX lY lT : loc)
    (X Y T P W : matrix) (b : list float) s :
  pinv2_contract pinv2_val → model s W b → output_weights s = None →
  heap s !! lX = Some (Array2 X) → wf_matrix X → ncols X = nrows W →
  heap s !! lY = Some (Array2 Y) → nrows Y ≠ nrows X →
  heap s !! lT = Some (Array2 T) → ncols T = nrows W →
  pinv2_val (activation X W b) = Ok P →
  ∃ s1 s2,
    fit pinv2_val lX lY s = (Raise ValueError, s1)
    ∧ output_weights s1 = None
    ∧ model s1 W b
    ∧ predict lT s1 = (Raise NameError, s2).
Proof.
  intros Hc Hm Hw HX HwfX Hcols HY HrY HT HcT HP.
  assert (Hlen : length b = ncols W) by (by destruct Hm as (_ & _ & _ & ?)).
  destruct (wf_activation X W b HwfX Hlen) as (HwfH & HrH & HcH).
  destruct (Hc _ _ HwfH HP) as (HwfP & HrP & HcP).
  destruct (fit pinv2_val lX lY s) as [r s1] eqn:Hfit.
  assert (Hframe := fit_frame _ _ _ _ _ _ Hfit).
  unfold fit in Hfit.
  rewrite (bind_ok _ _ _ _ _ (hidden_nodes_run _ _ _ _ _ Hm HX Hcols)) in Hfit.
  rewrite (solve_run pinv2_val _ lY (activation X W b) Y P) in Hfit;
    [| apply lookup_last2 | cbn; rewrite <- app_assoc; by apply lookup_grown
     | done].
  rewrite decide_False in Hfit by (rewrite HcP, HrH; congruence).
  injection Hfit as <- <-.
  assert (Hm1 := model_extends _ _ _ _ Hm Hframe).
  destruct Hframe as (_ & _ & How & _).
  eexists _, _. split; [reflexivity |].
  split; [by rewrite How |]. split; [exact Hm1 |].
  apply (predict_unfitted lT T W b); [exact Hm1 | | done | by rewrite How].
  cbn. rewrite <- !app_assoc. by apply lookup_grown.
Qed.

Lemma failed_fit_leaves_unfitted_witness :
  ∃ s1 s2,
    fit pinv2_unit 2 5 unit_state = (Raise ValueError, s1)
    ∧ output_weights s1 = None
    ∧ model s1 unit_matrix [zero]
    ∧ predict 2 s1 = (Raise NameError, s2).
Proof.
  apply (failed_fit_leaves_unfitted pinv2_unit 2 5 2 unit_matrix two_rows
           unit_matrix unit_matrix unit_matrix [zero] unit_state).
  - exact pinv2_unit_contract.
  - repeat split; repeat constructor.
  - reflexivity.
  - reflexivity.
  - repeat split; repeat constructor.
  - reflexivity.
  - reflexivity.
  - simpl. lia.
  - reflexivity.
  - reflexivity.
  - reflexivity.
Defined.
